(** * Meeting Sidekick: the transcription window, the rolling context and
      the completion-driven schedulers

    A shallow embedding of [meeting_sidekick/audio/recorder.py] and
    [meeting_sidekick/processing/assistant.py].

    Conventions of the embedding:
    - a Python [str] is the list of its code points ([list N]);
    - a Python [bytes] is a [list byte];
    - wall-clock times, the cooldown and audio amplitudes are exact
      rationals ([Q]); the float32 array built by the recorder holds the
      quotients [s / 32768] exactly, and no float lies strictly between
      [1/100] and the double nearest to it, so comparing with [1/100] is
      comparing with the literal [0.01]; rounding inside numpy's [mean] and
      inside the float subtraction of two clock readings is not modelled;
    - the collaborators (Whisper model, chat-completion client, callbacks,
      audio device) are function arguments; a call that raises is a
      distinguished result;
    - every side effect on a collaborator is recorded in a list of events
      returned next to the new state. *)

From Stdlib.Strings Require Import String Ascii Byte.
From Stdlib Require Import ZArith NArith QArith Qabs Lia Bool List.
Import ListNotations.
Open Scope list_scope.
Open Scope nat_scope.

Set Implicit Arguments.

(* ================================================================== *)
(** ** Python built-ins used by the two modules *)

Module Py.

(** A Python string, as the list of its code points. *)
Definition str := list N.

(** A string literal of the source (ASCII only). *)
Definition u (s : string) : str := map N_of_ascii (list_ascii_of_string s).

Definition bytes := list byte.

(** Outcome of calling a collaborator: it returns a value or raises. *)
Inductive outcome (A : Type) : Type :=
| Returns (a : A)
| Raises.
Arguments Raises {A}.

Definition within (lo hi c : N) : bool := ((lo <=? c) && (c <=? hi))%N.

(** [str.isspace] on one code point: the characters [str.strip()] removes. *)
Definition isspace (c : N) : bool :=
  within 9 13 c || within 28 32 c || (c =? 133)%N || (c =? 160)%N
  || (c =? 5760)%N || within 8192 8202 c || (c =? 8232)%N || (c =? 8233)%N
  || (c =? 8239)%N || (c =? 8287)%N || (c =? 12288)%N.

Fixpoint lstrip (s : str) : str :=
  match s with
  | c :: t => if isspace c then lstrip t else s
  | [] => []
  end.

Definition rstrip (s : str) : str := rev (lstrip (rev s)).

(** [s.strip()] *)
Definition strip (s : str) : str := rstrip (lstrip s).

(** [s.startswith(c)] for a one-character [c]. *)
Definition startswith (c : N) (s : str) : bool :=
  match s with
  | x :: _ => (x =? c)%N
  | [] => false
  end.

(** [s.endswith(c)] for a one-character [c]. *)
Definition endswith (c : N) (s : str) : bool := startswith c (rev s).

(** [s.find(c)]: index of the first occurrence, or -1. *)
Fixpoint find (c : N) (s : str) : Z :=
  match s with
  | [] => (-1)%Z
  | x :: t =>
      if (x =? c)%N then 0%Z
      else let i := find c t in if (i <? 0)%Z then (-1)%Z else (i + 1)%Z
  end.

(** [s.rfind(c)]: index of the last occurrence, or -1. *)
Fixpoint rfind (c : N) (s : str) : Z :=
  match s with
  | [] => (-1)%Z
  | x :: t =>
      let i := rfind c t in
      if (0 <=? i)%Z then (i + 1)%Z
      else if (x =? c)%N then 0%Z else (-1)%Z
  end.

(** [s[a:b]] for [0 <= a], [0 <= b]. *)
Definition slice (A : Type) (a b : Z) (s : list A) : list A :=
  firstn (Z.to_nat (b - a)) (skipn (Z.to_nat a) s).

(** [l[-n:]] for a positive literal [n]. *)
Definition last_n (A : Type) (n : nat) (l : list A) : list A :=
  skipn (length l - n) l.

(** [sep.join(parts)] *)
Fixpoint join (sep : str) (parts : list str) : str :=
  match parts with
  | [] => []
  | [p] => p
  | p :: rest => p ++ sep ++ join sep rest
  end.

(** [c in s] for a one-character [c]. *)
Definition contains (c : N) (s : str) : bool := existsb (N.eqb c) s.

(** Truth value of a string: non-empty. *)
Definition truthy (s : str) : bool :=
  match s with [] => false | _ :: _ => true end.

(** The line separator and the double quote, for multi-line literals. *)
Definition nl : str := [10%N].
Definition dq : str := [34%N].

(** The text of a triple-quoted literal, line by line. *)
Definition lines (ls : list str) : str := join nl ls.

End Py.

(* ================================================================== *)
(** ** [json.loads] *)

Module Json.
Import Py.

(** Values produced by the decoder.  An integer literal becomes a Python
    [int]; a literal with a fraction or an exponent, and the constants
    [NaN], [Infinity] and [-Infinity], become a [float], kept as the text
    that was read.  An object keeps its pairs in source order; a repeated
    key is resolved at lookup, the last pair winning as in [dict]. *)
#[warnings="-register-all"]
Inductive json : Type :=
| JNull
| JBool (b : bool)
| JInt (z : Z)
| JFloat (lexeme : str)
| JString (s : str)
| JArray (items : list json)
| JObject (pairs : list (str * json)).

Definition str_eqb (a b : str) : bool :=
  if list_eq_dec N.eq_dec a b then true else false.

(** [d[key]] when [key in d]; [None] when the key is absent. *)
Fixpoint get (key : str) (pairs : list (str * json)) : option json :=
  match pairs with
  | [] => None
  | (k, v) :: rest =>
      match get key rest with
      | Some v' => Some v'
      | None => if str_eqb k key then Some v else None
      end
  end.

(** [len(v)]; [None] stands for the [TypeError] of a value without length. *)
Definition len (v : json) : option nat :=
  match v with
  | JString s => Some (length s)
  | JArray l => Some (length l)
  | JObject kv => Some (length (nodup (list_eq_dec N.eq_dec) (map fst kv)))
  | _ => None
  end.

(** The decoder's whitespace: space, tab, line feed, carriage return. *)
Definition is_ws (c : N) : bool :=
  ((c =? 32) || (c =? 9) || (c =? 10) || (c =? 13))%N.

Fixpoint skip_ws (s : str) : str :=
  match s with
  | c :: t => if is_ws c then skip_ws t else s
  | [] => []
  end.

Definition is_digit (c : N) : bool := within 48 57 c.

Definition hex_value (c : N) : option N :=
  if within 48 57 c then Some (c - 48)%N
  else if within 97 102 c then Some (c - 87)%N
  else if within 65 70 c then Some (c - 55)%N
  else None.

(** Four hexadecimal digits of a [\uXXXX] escape. *)
Definition hex4 (s : str) : option (N * str) :=
  match s with
  | a :: b :: c :: d :: rest =>
      match hex_value a, hex_value b, hex_value c, hex_value d with
      | Some x, Some y, Some z, Some w =>
          Some (((x * 16 + y) * 16 + z) * 16 + w, rest)%N
      | _, _, _, _ => None
      end
  | _ => None
  end.

(** The one-character escapes. *)
Definition backslash (c : N) : option N :=
  if (c =? 34)%N then Some 34%N
  else if (c =? 92)%N then Some 92%N
  else if (c =? 47)%N then Some 47%N
  else if (c =? 98)%N then Some 8%N
  else if (c =? 102)%N then Some 12%N
  else if (c =? 110)%N then Some 10%N
  else if (c =? 114)%N then Some 13%N
  else if (c =? 116)%N then Some 9%N
  else None.

(** After a high surrogate [hi]: a low surrogate escape at the head of
    [s], combined with [hi] into one code point. *)
Definition low_surrogate (hi : N) (s : str) : option (N * str) :=
  if within 55296 56319 hi then
    match s with
    | a :: b :: t =>
        if ((a =? 92) && (b =? 117))%N then
          match hex4 t with
          | Some (lo, t') =>
              if within 56320 57343 lo then
                Some ((65536 + ((hi - 55296) * 1024 + (lo - 56320)))%N, t')
              else None
          | None => None
          end
        else None
    | _ => None
    end
  else None.

(** The body of a string literal, after its opening quote (strict mode: a
    raw control character is an error).  A high surrogate escape directly
    followed by a low surrogate escape is one code point. *)
Fixpoint scanstring (fuel : nat) (s : str) (acc : str) : option (str * str) :=
  match fuel with
  | O => None
  | S fuel' =>
      match s with
      | [] => None
      | c :: t =>
          if (c =? 34)%N then Some (rev acc, t)
          else if (c =? 92)%N then
            match t with
            | [] => None
            | e :: t' =>
                if (e =? 117)%N then
                  match hex4 t' with
                  | None => None
                  | Some (hi, t'') =>
                      match low_surrogate hi t'' with
                      | Some (cp, t4) => scanstring fuel' t4 (cp :: acc)
                      | None => scanstring fuel' t'' (hi :: acc)
                      end
                  end
                else
                  match backslash e with
                  | Some x => scanstring fuel' t' (x :: acc)
                  | None => None
                  end
            end
          else if (c <? 32)%N then None
          else scanstring fuel' t (c :: acc)
      end
  end.

Fixpoint take_digits (s : str) : str * str :=
  match s with
  | c :: t =>
      if is_digit c then let (d, r) := take_digits t in (c :: d, r)
      else ([], s)
  | [] => ([], [])
  end.

Definition digits_value (d : str) : Z :=
  fold_left (fun a c => (a * 10 + Z.of_N (c - 48))%Z) d 0%Z.

(** The integer part [0 | [1-9][0-9]*] of a number. *)
Definition int_part (s : str) : option (str * str) :=
  match s with
  | c :: t =>
      if (c =? 48)%N then Some ([c], t)
      else if within 49 57 c then
        let (d, r) := take_digits t in Some (c :: d, r)
      else None
  | [] => None
  end.

(** The optional fraction [.[0-9]+]. *)
Definition frac_part (s : str) : str * str :=
  match s with
  | c :: t =>
      if (c =? 46)%N then
        match take_digits t with
        | ([], _) => ([], s)
        | (d, r) => (c :: d, r)
        end
      else ([], s)
  | [] => ([], s)
  end.

(** The optional exponent [[eE][-+]?[0-9]+]. *)
Definition exp_part (s : str) : str * str :=
  match s with
  | e :: t =>
      if ((e =? 101) || (e =? 69))%N then
        let '(sign, t') :=
          match t with
          | c :: t1 => if ((c =? 45) || (c =? 43))%N then ([c], t1) else ([], t)
          | [] => ([], t)
          end in
        match take_digits t' with
        | ([], _) => ([], s)
        | (d, r) => (e :: sign ++ d, r)
        end
      else ([], s)
  | [] => ([], s)
  end.

(** A number at the head of [s], if there is one. *)
Definition scan_number (s : str) : option (json * str) :=
  let '(neg, s1) :=
    match s with
    | c :: t => if (c =? 45)%N then (true, t) else (false, s)
    | [] => (false, s)
    end in
  match int_part s1 with
  | None => None
  | Some (i, s2) =>
      let (f, s3) := frac_part s2 in
      let (e, s4) := exp_part s3 in
      match f, e with
      | [], [] =>
          Some (JInt (if neg then - digits_value i else digits_value i)%Z, s4)
      | _, _ =>
          Some (JFloat ((if neg then [45%N] else []) ++ i ++ f ++ e), s4)
      end
  end.

(** [s] starts with the literal [lit]; the rest of [s] after it. *)
Fixpoint strip_prefix (lit s : str) : option str :=
  match lit, s with
  | [], _ => Some s
  | a :: lit', b :: s' => if (a =? b)%N then strip_prefix lit' s' else None
  | _ :: _, [] => None
  end.

(** The text after the character [c], when [s] starts with it. *)
Definition expect (c : N) (s : str) : option str :=
  match s with
  | x :: t => if (x =? c)%N then Some t else None
  | [] => None
  end.

Section Containers.
(** The scanner for one value, one nesting level down. *)
Variable scan : str -> option (json * str).

(** Items of an array after the first value has been requested: value,
    then [']'] or [','] . *)
Fixpoint array_items (fuel : nat) (s : str) (acc : list json)
  : option (json * str) :=
  match fuel with
  | O => None
  | S fuel' =>
      match scan s with
      | None => None
      | Some (v, r) =>
          match skip_ws r with
          | c :: r' =>
              if (c =? 93)%N then Some (JArray (rev (v :: acc)), r')
              else if (c =? 44)%N then
                array_items fuel' (skip_ws r') (v :: acc)
              else None
          | [] => None
          end
      end
  end.

(** The text after ['['] . *)
Definition scan_array (fuel : nat) (s : str) : option (json * str) :=
  match skip_ws s with
  | c :: r =>
      if (c =? 93)%N then Some (JArray [], r)
      else array_items fuel (c :: r) []
  | [] => None
  end.

(** Members of an object, positioned on the quote that opens a key. *)
Fixpoint object_members (fuel : nat) (s : str) (acc : list (str * json))
  : option (json * str) :=
  match fuel with
  | O => None
  | S fuel' =>
      match expect 34 s with
      | None => None
      | Some t =>
          match scanstring (S (length t)) t [] with
          | None => None
          | Some (key, r) =>
              match expect 58 (skip_ws r) with
              | None => None
              | Some r1 =>
                  match scan (skip_ws r1) with
                  | None => None
                  | Some (v, r2) =>
                      match skip_ws r2 with
                      | c :: r3 =>
                          if (c =? 125)%N then
                            Some (JObject (rev ((key, v) :: acc)), r3)
                          else if (c =? 44)%N then
                            object_members fuel' (skip_ws r3)
                              ((key, v) :: acc)
                          else None
                      | [] => None
                      end
                  end
              end
          end
      end
  end.

(** The text after ['{'] . *)
Definition scan_object (fuel : nat) (s : str) : option (json * str) :=
  match skip_ws s with
  | c :: r =>
      if (c =? 125)%N then Some (JObject [], r)
      else object_members fuel (c :: r) []
  | [] => None
  end.
End Containers.

(** One value at the head of [s] (no leading whitespace), in the order the
    decoder tries the alternatives. *)
Fixpoint scan_once (fuel : nat) (s : str) : option (json * str) :=
  match fuel with
  | O => None
  | S fuel' =>
      match s with
      | [] => None
      | c :: t =>
          if (c =? 34)%N then
            match scanstring (S (length t)) t [] with
            | Some (x, r) => Some (JString x, r)
            | None => None
            end
          else if (c =? 123)%N then scan_object (scan_once fuel') fuel' t
          else if (c =? 91)%N then scan_array (scan_once fuel') fuel' t
          else
            match strip_prefix (u "null") s with
            | Some r => Some (JNull, r)
            | None =>
            match strip_prefix (u "true") s with
            | Some r => Some (JBool true, r)
            | None =>
            match strip_prefix (u "false") s with
            | Some r => Some (JBool false, r)
            | None =>
            match scan_number s with
            | Some res => Some res
            | None =>
            match strip_prefix (u "NaN") s with
            | Some r => Some (JFloat (u "NaN"), r)
            | None =>
            match strip_prefix (u "Infinity") s with
            | Some r => Some (JFloat (u "Infinity"), r)
            | None =>
            match strip_prefix (u "-Infinity") s with
            | Some r => Some (JFloat (u "-Infinity"), r)
            | None => None
            end end end end end end end
      end
  end.

(** [json.loads(s)]; [None] stands for [json.JSONDecodeError].  Every
    nested value and every loop iteration consumes a character, so the
    length of the text bounds both. *)
Definition loads (s : str) : option json :=
  match scan_once (S (length s)) (skip_ws s) with
  | Some (v, r) =>
      match skip_ws r with
      | [] => Some v
      | _ :: _ => None
      end
  | None => None
  end.

(** [r] is what is left of [s] after reading some prefix of it. *)
Definition suffix (r s : str) : Prop := exists p, s = p ++ r.

(** The values a number literal decodes to. *)
Definition is_number (v : json) : Prop :=
  match v with JInt _ | JFloat _ => True | _ => False end.

End Json.

(* ================================================================== *)
(** ** audio/recorder.py *)

Module Recorder.
Import Py.

(** Exact comparison [a < b] on rationals. *)
Definition Qltb (a b : Q) : bool :=
  (Qnum a * QDen b <? Qnum b * QDen a)%Z.

(** One little-endian signed 16-bit sample. *)
Definition int16 (lo hi : byte) : Z :=
  let v := (Z.of_N (Byte.to_N lo) + 256 * Z.of_N (Byte.to_N hi))%Z in
  if (v <? 32768)%Z then v else (v - 65536)%Z.

(** [np.frombuffer(audio_data, np.int16)]; [None] stands for the
    [ValueError] raised when the buffer is not a whole number of samples. *)
Fixpoint frombuffer_int16 (audio_data : bytes) : option (list Z) :=
  match audio_data with
  | [] => Some []
  | lo :: hi :: rest =>
      match frombuffer_int16 rest with
      | Some l => Some (int16 lo hi :: l)
      | None => None
      end
  | [_] => None
  end.

(** [.astype(np.float32) / 32768.0] *)
Definition normalize (samples : list Z) : list Q :=
  map (fun s => (inject_Z s / 32768)%Q) samples.

(** [np.abs(audio_np).mean()]; [None] stands for the [nan] of an empty
    array. *)
Definition mean_abs (audio_np : list Q) : option Q :=
  match audio_np with
  | [] => None
  | _ :: _ =>
      Some (fold_left Qplus (map Qabs audio_np) 0%Q
            / inject_Z (Z.of_nat (length audio_np)))%Q
  end.

(** [mean > threshold]; a [nan] compares false. *)
Definition exceeds (mean : option Q) (threshold : Q) : bool :=
  match mean with
  | Some m => Qltb threshold m
  | None => false
  end.

Definition silence_threshold : Q := (1 # 100)%Q.

(** The parameters [_capture_audio] opens the input stream with. *)
Record stream_params : Type := {
  sample_width : nat;      (* bytes per sample of the format *)
  channels : nat;
  rate : N;
  frames_per_buffer : nat
}.

Definition capture_params : stream_params :=
  {| sample_width := 2;    (* pyaudio.paInt16 *)
     channels := 1;
     rate := 16000%N;
     frames_per_buffer := 4000 |}.

(** The number of samples asked of each [stream.read]. *)
Definition read_size : nat := 4000.

(** An opened input stream: the result of the [i]-th [read(n)]. *)
Definition stream := nat -> nat -> outcome bytes.

(** What PyAudio promises of a blocking read on a stream opened with
    [p]: [n] frames, each of [channels] samples of [sample_width] bytes. *)
Definition stream_contract (p : stream_params) (s : stream) : Prop :=
  forall i n b, s i n = Returns b ->
    length b = n * channels p * sample_width p.

(** The attributes of [SpeechRecognizer] the two loops use. *)
Record SpeechRecognizer : Type := {
  audio_queue : list bytes;
  model : list Q -> outcome str;     (* model.transcribe(audio)["text"] *)
  transcription : list str;
  new_transcription_callback : option (str -> outcome unit)
}.

Definition set_audio_queue (self : SpeechRecognizer) (q : list bytes) :=
  {| audio_queue := q;
     model := model self;
     transcription := transcription self;
     new_transcription_callback := new_transcription_callback self |}.

Definition set_transcription (self : SpeechRecognizer) (t : list str) :=
  {| audio_queue := audio_queue self;
     model := model self;
     transcription := t;
     new_transcription_callback := new_transcription_callback self |}.

(** [_capture_audio]: [iterations] turns of the loop, the first of them
    being the [i]-th read of the stream.  A failed read is printed and
    skipped. *)
Fixpoint capture_audio (s : stream) (i iterations : nat)
    (self : SpeechRecognizer) : SpeechRecognizer :=
  match iterations with
  | O => self
  | S k =>
      match s i read_size with
      | Returns audio_chunk =>
          capture_audio s (S i) k
            (set_audio_queue self (audio_queue self ++ [audio_chunk]))
      | Raises => capture_audio s (S i) k self
      end
  end.

(** What the consumer does to its collaborators. *)
Inductive event : Type :=
| Transcribe (audio_np : list Q)     (* self.model.transcribe(audio_np) *)
| Callback (text : str).             (* self.new_transcription_callback(text) *)

(** The body of the [if len(buffer) > 10] block, lines 95-114, on the
    buffer that already holds the new chunk.  An exception leaves through
    the handler of line 117, which skips the reset of line 114. *)
Definition process_window (self : SpeechRecognizer) (buffer : list bytes)
    : SpeechRecognizer * list bytes * list event :=
  let audio_data := concat buffer in
  match frombuffer_int16 audio_data with
  | None => (self, buffer, [])
  | Some samples =>
      let audio_np := normalize samples in
      if exceeds (mean_abs audio_np) silence_threshold then
        match model self audio_np with
        | Raises => (self, buffer, [Transcribe audio_np])
        | Returns result_text =>
            let text := strip result_text in
            if truthy text then
              let self' := set_transcription self (transcription self ++ [text]) in
              match new_transcription_callback self with
              | None => (self', last_n 2 buffer, [Transcribe audio_np])
              | Some callback =>
                  match callback text with
                  | Returns _ =>
                      (self', last_n 2 buffer,
                       [Transcribe audio_np; Callback text])
                  | Raises =>
                      (self', buffer, [Transcribe audio_np; Callback text])
                  end
              end
            else (self, last_n 2 buffer, [Transcribe audio_np])
        end
      else (self, last_n 2 buffer, [])
  end.

(** One turn of the [while] loop of [_process_audio]. *)
Definition process_turn (self : SpeechRecognizer) (buffer : list bytes)
    : SpeechRecognizer * list bytes * list event :=
  match audio_queue self with
  | [] => (self, buffer, [])                       (* time.sleep(0.1) *)
  | chunk :: queue =>
      let self := set_audio_queue self queue in
      let buffer := buffer ++ [chunk] in
      if 10 <? length buffer then process_window self buffer
      else (self, buffer, [])
  end.

(** [_process_audio]: [turns] turns of the loop from a given window. *)
Fixpoint process_loop (turns : nat) (self : SpeechRecognizer)
    (buffer : list bytes) : SpeechRecognizer * list bytes * list event :=
  match turns with
  | O => (self, buffer, [])
  | S k =>
      let '(self1, buffer1, ev1) := process_turn self buffer in
      let '(self2, buffer2, ev2) := process_loop k self1 buffer1 in
      (self2, buffer2, ev1 ++ ev2)
  end.

(** [_process_audio] starts from the empty window. *)
Definition process_audio (turns : nat) (self : SpeechRecognizer) :=
  process_loop turns self [].

(** Number of recognizer invocations in a trace. *)
Definition transcribe_calls (tr : list event) : nat :=
  length (filter (fun e => match e with Transcribe _ => true | _ => false end) tr).

(** Number of callback invocations in a trace. *)
Definition callback_calls (tr : list event) : nat :=
  length (filter (fun e => match e with Callback _ => true | _ => false end) tr).

End Recorder.

(* ================================================================== *)
(** ** processing/assistant.py *)

Module Assistant.
Import Py Json.

Definition Qltb := Recorder.Qltb.

(** The arguments of [client.chat.completions.create]. *)
Record chat_request : Type := {
  gpt_model : str;
  system_content : str;
  user_content : str
}.

(** The completion collaborator: [response.choices[0].message.content],
    or an exception. *)
Definition completion := chat_request -> outcome str.

Record MeetingAssistant : Type := {
  meeting_transcript : list str;
  current_summary : str;
  action_items : json;
  conversation_context : list str;
  last_insight_time : Q;
  insight_cooldown : Q;
  meeting_title : str;
  insight_callback : option (json -> outcome unit)
}.

(** [__init__]; the title is built from the clock by the caller. *)
Definition init (title : str) : MeetingAssistant :=
  {| meeting_transcript := [];
     current_summary := [];
     action_items := JArray [];
     conversation_context := [];
     last_insight_time := 0%Q;
     insight_cooldown := 30%Q;
     meeting_title := title;
     insight_callback := None |}.

Definition set_insight_callback (self : MeetingAssistant)
    (callback : option (json -> outcome unit)) : MeetingAssistant :=
  {| meeting_transcript := meeting_transcript self;
     current_summary := current_summary self;
     action_items := action_items self;
     conversation_context := conversation_context self;
     last_insight_time := last_insight_time self;
     insight_cooldown := insight_cooldown self;
     meeting_title := meeting_title self;
     insight_callback := callback |}.

Definition set_last_insight_time (self : MeetingAssistant) (t : Q) :=
  {| meeting_transcript := meeting_transcript self;
     current_summary := current_summary self;
     action_items := action_items self;
     conversation_context := conversation_context self;
     last_insight_time := t;
     insight_cooldown := insight_cooldown self;
     meeting_title := meeting_title self;
     insight_callback := insight_callback self |}.

Definition set_current_summary (self : MeetingAssistant) (summary : str) :=
  {| meeting_transcript := meeting_transcript self;
     current_summary := summary;
     action_items := action_items self;
     conversation_context := conversation_context self;
     last_insight_time := last_insight_time self;
     insight_cooldown := insight_cooldown self;
     meeting_title := meeting_title self;
     insight_callback := insight_callback self |}.

Definition set_action_items (self : MeetingAssistant) (items : json) :=
  {| meeting_transcript := meeting_transcript self;
     current_summary := current_summary self;
     action_items := items;
     conversation_context := conversation_context self;
     last_insight_time := last_insight_time self;
     insight_cooldown := insight_cooldown self;
     meeting_title := meeting_title self;
     insight_callback := insight_callback self |}.

(** Lines 43-48: the two appends and the cap of the rolling context. *)
Definition append_segment (self : MeetingAssistant) (text_segment : str) :=
  let context := conversation_context self ++ [text_segment] in
  {| meeting_transcript := meeting_transcript self ++ [text_segment];
     current_summary := current_summary self;
     action_items := action_items self;
     conversation_context :=
       if 20 <? length context then last_n 20 context else context;
     last_insight_time := last_insight_time self;
     insight_cooldown := insight_cooldown self;
     meeting_title := meeting_title self;
     insight_callback := insight_callback self |}.

(** What the assistant does to its collaborators. *)
Inductive event : Type :=
| Completion (request : chat_request)   (* client.chat.completions.create *)
| InsightCallback (batch : json).       (* self.insight_callback(batch) *)

(** Indentation of the prompt literals. *)
Definition ind : str := u "        ".

Definition quoted (s : string) : str := dq ++ u s ++ dq.

Definition summary_prompt (current_summary recent_transcript : str) : str :=
  lines
    [ [];
      ind ++ u "Previous summary: " ++ current_summary;
      ind;
      ind ++ u "New meeting transcript segment: ";
      ind ++ recent_transcript;
      ind;
      ind ++ u "Please update the summary to incorporate this new information. ";
      ind ++ u "Focus on key points, decisions, and important discussion topics.";
      ind ++ u "Keep the summary concise but comprehensive.";
      ind ].

Definition summary_request (current_summary recent_transcript : str) :=
  {| gpt_model := u "gpt-4";
     system_content := u "You are a helpful assistant that summarizes meetings.";
     user_content := summary_prompt current_summary recent_transcript |}.

Definition action_items_prompt (full_transcript : str) : str :=
  lines
    [ [];
      ind ++ u "Based on the following meeting transcript, identify all action items.";
      ind ++ u "For each action item, extract:";
      ind ++ u "1. The responsible person";
      ind ++ u "2. The specific task";
      ind ++ u "3. The deadline (if mentioned)";
      ind ++ u "4. Priority level (if indicated)";
      ind;
      ind ++ u "Format the output as a JSON array of objects with the following structure:";
      ind ++ u "[";
      ind ++ u "    {" ++ quoted "person" ++ u ": " ++ quoted "Name" ++ u ", "
          ++ quoted "task" ++ u ": " ++ quoted "Task description" ++ u ", "
          ++ quoted "deadline" ++ u ": " ++ quoted "Deadline or null" ++ u ", "
          ++ quoted "priority" ++ u ": " ++ quoted "Priority or null" ++ u "}";
      ind ++ u "]";
      ind;
      ind ++ u "Meeting transcript:";
      ind ++ full_transcript;
      ind ].

Definition action_items_request (full_transcript : str) :=
  {| gpt_model := u "gpt-4";
     system_content :=
       u "You are a helpful assistant that extracts action items from meeting transcripts.";
     user_content := action_items_prompt full_transcript |}.

Definition insights_prompt (recent_context : str) : str :=
  lines
    [ [];
      ind ++ u "Based on the following recent meeting conversation, generate 1-2 highly relevant insights that would help the user contribute meaningfully.";
      ind;
      ind ++ u "These insights should:";
      ind ++ u "1. Be directly relevant to the current topic";
      ind ++ u "2. Provide valuable information the user could mention";
      ind ++ u "3. Be concise and ready to use in conversation (under 100 words)";
      ind ++ u "4. Help the user sound more knowledgeable and prepared";
      ind ++ u "5. Not repeat information already mentioned";
      ind;
      ind ++ u "Recent conversation:";
      ind ++ recent_context;
      ind;
      ind ++ u "Format as a JSON object with " ++ quoted "insights"
          ++ u " array containing objects with " ++ quoted "title" ++ u " and "
          ++ quoted "detail" ++ u " fields.";
      ind ].

Definition insights_request (recent_context : str) :=
  {| gpt_model := u "gpt-4";
     system_content :=
       u "You are an AI assistant that provides real-time conversational insights.";
     user_content := insights_prompt recent_context |}.

(** How the inner [try] block of either parser ends. *)
Inductive parse_result : Type :=
| Parsed (v : json)
| JSONDecodeError      (* json.loads rejected the text *)
| ValueError.          (* the explicit [raise ValueError(...)] *)

Definition decode (text : str) : parse_result :=
  match loads text with
  | Some v => Parsed v
  | None => JSONDecodeError
  end.

(** Lines 128-138 with ['['], [']'] and lines 196-206 with ['{'], ['}']:
    the whole content when its stripped form is delimited by the two
    brackets, else the text from the first opening to the last closing
    bracket. *)
Definition parse_response (opening closing : N) (content : str)
    : parse_result :=
  if startswith opening (strip content) && endswith closing (strip content)
  then decode content
  else
    let start_idx := find opening content in
    let end_idx := (rfind closing content + 1)%Z in
    if (0 <=? start_idx)%Z && (start_idx <? end_idx)%Z
    then decode (slice start_idx end_idx content)
    else ValueError.

Definition lbrace : N := 123.
Definition rbrace : N := 125.
Definition lbracket : N := 91.
Definition rbracket : N := 93.

(** Line 208: the batch to publish, when the decoded value is a non-empty
    dict whose ["insights"] entry has a positive length.  Every other value
    either fails the test or raises a [TypeError] that the handler of line
    219 swallows; both leave without effect. *)
Definition insights_batch (insights_data : json) : option json :=
  match insights_data with
  | JObject ((_ :: _) as pairs) =>
      match get (u "insights") pairs with
      | Some batch =>
          match len batch with
          | Some n => if 0 <? n then Some batch else None
          | None => None
          end
      | None => None
      end
  | _ => None
  end.

(** [_generate_real_time_insights], with the reading of the clock and the
    completion collaborator as arguments. *)
Definition generate_real_time_insights (self : MeetingAssistant)
    (current_time : Q) (create : completion)
    : MeetingAssistant * list event :=
  if Qltb (current_time - last_insight_time self) (insight_cooldown self)
  then (self, [])
  else if length (conversation_context self) <? 3 then (self, [])
  else
    let recent_context := join (u " ") (conversation_context self) in
    let request := insights_request recent_context in
    match create request with
    | Raises => (self, [Completion request])
    | Returns content =>
        match parse_response lbrace rbrace content with
        | Parsed insights_data =>
            match insights_batch insights_data with
            | Some batch =>
                (set_last_insight_time self current_time,
                 Completion request ::
                 match insight_callback self with
                 | Some _ => [InsightCallback batch]
                 | None => []
                 end)
            | None => (self, [Completion request])
            end
        | JSONDecodeError | ValueError => (self, [Completion request])
        end
    end.

(** [add_transcript] *)
Definition add_transcript (self : MeetingAssistant) (text_segment : str)
    (current_time : Q) (create : completion)
    : MeetingAssistant * list event :=
  if truthy (strip text_segment) then
    generate_real_time_insights (append_segment self text_segment)
      current_time create
  else (self, []).

Definition summary_unavailable : str :=
  u "Unable to generate summary at this time.".

(** [update_summary]: the new state, the returned text and the calls. *)
Definition update_summary (self : MeetingAssistant) (create : completion)
    : MeetingAssistant * str * list event :=
  match meeting_transcript self with
  | [] => (self, [], [])
  | _ :: _ =>
      let recent_transcript :=
        join (u " ") (last_n 10 (meeting_transcript self)) in
      let request := summary_request (current_summary self) recent_transcript in
      match create request with
      | Returns content =>
          (set_current_summary self content, content, [Completion request])
      | Raises =>
          (self,
           if truthy (current_summary self) then current_summary self
           else summary_unavailable,
           [Completion request])
      end
  end.

(** The list assigned at line 141. *)
Definition parse_error_items : json :=
  JArray [JObject [(u "task",
    JString (u "Error parsing action items, please check transcript manually"))]].

(** The list returned at line 146. *)
Definition extract_error_items : json :=
  JArray [JObject [(u "task",
    JString (u "Error extracting action items, please try again later"))]].

(** [extract_action_items]: the new state, the returned list and the
    calls.  [except json.JSONDecodeError] does not catch the [ValueError]
    of line 138, which reaches the handler of line 144. *)
Definition extract_action_items (self : MeetingAssistant) (create : completion)
    : MeetingAssistant * json * list event :=
  match meeting_transcript self with
  | [] => (self, JArray [], [])
  | _ :: _ =>
      let full_transcript := join (u " ") (meeting_transcript self) in
      let request := action_items_request full_transcript in
      match create request with
      | Raises => (self, extract_error_items, [Completion request])
      | Returns content =>
          match parse_response lbracket rbracket content with
          | Parsed items =>
              (set_action_items self items, items, [Completion request])
          | JSONDecodeError =>
              (set_action_items self parse_error_items, parse_error_items,
               [Completion request])
          | ValueError => (self, extract_error_items, [Completion request])
          end
      end
  end.

(** [get_full_transcript] *)
Definition get_full_transcript (self : MeetingAssistant) : str :=
  join nl (meeting_transcript self).

(** The dictionary [export_meeting_data] hands to the exporter; the date
    is read from the clock by the caller. *)
Record meeting_data : Type := {
  md_title : str;
  md_date : str;
  md_summary : str;
  md_action_items : json;
  md_transcript : str
}.

Definition export_meeting_data (self : MeetingAssistant) (date : str)
    : meeting_data :=
  {| md_title := meeting_title self;
     md_date := date;
     md_summary := current_summary self;
     md_action_items := action_items self;
     md_transcript := get_full_transcript self |}.

(** Number of completion calls in a trace. *)
Definition completion_calls (tr : list event) : nat :=
  length (filter (fun e => match e with Completion _ => true | _ => false end) tr).

(** One [add_transcript] call as seen from outside: the segment, the
    reading of the clock and the behaviour of the collaborator then. *)
Record arrival : Type := {
  segment : str;
  at_time : Q;
  service : completion
}.

(** The call passes the guard of line 40. *)
Definition accepted (c : arrival) : Prop :=
  truthy (strip (segment c)) = true.

(** A sequence of [add_transcript] calls. *)
Fixpoint add_transcripts (self : MeetingAssistant) (calls : list arrival)
    : MeetingAssistant * list event :=
  match calls with
  | [] => (self, [])
  | c :: rest =>
      let (self1, ev1) := add_transcript self (segment c) (at_time c) (service c) in
      let (self2, ev2) := add_transcripts self1 rest in
      (self2, ev1 ++ ev2)
  end.

End Assistant.

(* ================================================================== *)
(** ** Concrete sessions used to exercise the definitions *)

Module Scenario.
Import Py Json.

(** A frame of two samples of amplitude 0. *)
Definition silent_frame : bytes := [x00; x00; x00; x00].

(** A frame of two samples of amplitude 16384 / 32768 = 1/2. *)
Definition voiced_frame : bytes := [x00; x40; x00; x40].

(** A recognizer stub that hears the same words in every window. *)
Definition fixed_text : list Q -> outcome str :=
  fun _ => Returns (u " we should ship Friday ").

Definition recognizer (queue : list bytes) : Recorder.SpeechRecognizer :=
  {| Recorder.audio_queue := queue;
     Recorder.model := fixed_text;
     Recorder.transcription := [];
     Recorder.new_transcription_callback := Some (fun _ => Returns tt) |}.

(** An input device that always delivers silence. *)
Definition quiet_device : Recorder.stream :=
  fun _ n => Returns (repeat x00 (n * 2)).

(** A completion collaborator that answers every request with [text]. *)
Definition answering (text : str) : Assistant.completion :=
  fun _ => Returns text.

(** A completion collaborator that is down. *)
Definition failing : Assistant.completion := fun _ => Raises.

Definition title : str := u "Meeting 2025-01-01 09:00".

Definition insight_object (heading : string) : str :=
  u "{" ++ Assistant.quoted "insights" ++ u ":[{" ++ Assistant.quoted "title"
    ++ u ":" ++ Assistant.quoted heading ++ u "," ++ Assistant.quoted "detail"
    ++ u ":" ++ Assistant.quoted "B" ++ u "}]}".

(** What that object holds between its outer braces. *)
Definition insight_body (heading : string) : str :=
  removelast (tl (insight_object heading)).

(** The response of the JSON-recovery example. *)
Definition embedded_response : str :=
  u "here is the result: " ++ insight_object "A" ++ u " thanks".

(** The batch that response carries. *)
Definition batch_of (heading : string) : json :=
  JArray [JObject [(u "title", JString (u heading));
                   (u "detail", JString (u "B"))]].

(** The same object after prose that itself uses braces. *)
Definition braces_in_prose : str :=
  u "fields {title, detail} follow: " ++ insight_object "A".

(** The same object after a vertical tab, which [str.strip] removes and
    the decoder does not skip. *)
Definition after_vertical_tab : str := 11%N :: insight_object "A".

(** A session three segments long, with a listener registered. *)
Definition three_segments : Assistant.MeetingAssistant :=
  {| Assistant.meeting_transcript := [u "a"; u "b"; u "c"];
     Assistant.current_summary := u "old summary";
     Assistant.action_items :=
       JArray [JObject [(u "task", JString (u "send the report"))]];
     Assistant.conversation_context := [u "a"; u "b"; u "c"];
     Assistant.last_insight_time := 0%Q;
     Assistant.insight_cooldown := 30%Q;
     Assistant.meeting_title := title;
     Assistant.insight_callback := Some (fun _ => Returns tt) |}.

Definition call (text : string) (t : Q) : Assistant.arrival :=
  {| Assistant.segment := u text;
     Assistant.at_time := t;
     Assistant.service := answering (insight_object "A") |}.

(** Twenty-five numbered segments, five seconds apart. *)
Definition numbered (n : nat) : Assistant.arrival :=
  {| Assistant.segment := u "segment " ++ [N.of_nat (65 + n)];
     Assistant.at_time := inject_Z (5 * Z.of_nat n);
     Assistant.service := failing |}.

Definition twenty_five : list Assistant.arrival := map numbered (seq 0 25).

End Scenario.

(* ================================================================== *)
(** ** utils/export.py *)

Module Exporter.
Import Py.

(** [s.replace(old, new)] for one-character [old] and [new]. *)
Definition replace (old new : N) (s : str) : str :=
  map (fun c => if (c =? old)%N then new else c) s.

(** The characters [sanitize_filename] removes, in the order of line 22. *)
Definition invalid_chars : str := u "<>:" ++ dq ++ u "/\|?*".

Definition underscore : N := 95.

(** [sanitize_filename]: one [replace] per invalid character, in turn. *)
Definition sanitize_filename (filename : str) : str :=
  fold_left (fun name char => replace char underscore name)
    invalid_chars filename.

(** [generate_filename]; [date_str] is the formatted reading of the clock. *)
Definition generate_filename (date_str meeting_title extension : str) : str :=
  sanitize_filename meeting_title ++ u "_" ++ date_str ++ u "." ++ extension.

(** A character a file name may keep. *)
Definition valid_char (c : N) : bool := negb (contains c invalid_chars).

(** What becomes of one character of the name. *)
Definition sanitize_char (c : N) : N :=
  if contains c invalid_chars then underscore else c.

End Exporter.

(* ================================================================== *)
(** ** processing/insights.py *)

Module Insights.
Import Py Json.

(** [s.startswith(prefix)] *)
Fixpoint has_prefix (prefix s : str) : bool :=
  match prefix, s with
  | [], _ => true
  | a :: p, b :: t => (a =? b)%N && has_prefix p t
  | _ :: _, [] => false
  end.

(** [needle in hay] for strings. *)
Fixpoint occurs_in (needle hay : str) : bool :=
  has_prefix needle hay
  || match hay with
     | [] => false
     | _ :: t => occurs_in needle t
     end.

(** The dictionary [categorize_insights] returns. *)
Record categories : Type := {
  facts : list json;
  suggestions : list json;
  other : list json
}.

(** [insight.get('detail', '')], as far as [.lower()] accepts it: [None]
    stands for the [AttributeError] of an insight that is no dict or of a
    detail that is no string. *)
Definition detail_text (insight : json) : option str :=
  match insight with
  | JObject pairs =>
      match get (u "detail") pairs with
      | None => Some []
      | Some (JString s) => Some s
      | Some _ => None
      end
  | _ => None
  end.

Section Categorize.
(** [str.lower]; its Unicode case tables are not part of this
    development. *)
Variable lower : str -> str.

(** The test of line 47. *)
Definition suggests (detail : str) : bool :=
  occurs_in (u "suggest") detail || occurs_in (u "should") detail
  || occurs_in (u "could") detail.

(** The test of line 49. *)
Definition states_fact (detail : str) : bool :=
  occurs_in (u "fact") detail || occurs_in (u "data") detail
  || occurs_in (u "according to") detail.

(** The loop of lines 44-52 from given lists; [None] when an insight
    raises. *)
Fixpoint categorize_from (cats : categories) (insights : list json)
    : option categories :=
  match insights with
  | [] => Some cats
  | insight :: rest =>
      match detail_text insight with
      | None => None
      | Some text =>
          let detail := lower text in
          if suggests detail then
            categorize_from
              {| facts := facts cats;
                 suggestions := suggestions cats ++ [insight];
                 other := other cats |} rest
          else if states_fact detail then
            categorize_from
              {| facts := facts cats ++ [insight];
                 suggestions := suggestions cats;
                 other := other cats |} rest
          else
            categorize_from
              {| facts := facts cats;
                 suggestions := suggestions cats;
                 other := other cats ++ [insight] |} rest
      end
  end.

(** [categorize_insights] *)
Definition categorize_insights (insights : list json) : option categories :=
  categorize_from {| facts := []; suggestions := []; other := [] |} insights.

(** The category an insight with a usable detail goes to. *)
Definition is_suggestion (insight : json) : bool :=
  match detail_text insight with
  | Some text => suggests (lower text)
  | None => false
  end.

Definition is_fact (insight : json) : bool :=
  match detail_text insight with
  | Some text => negb (suggests (lower text)) && states_fact (lower text)
  | None => false
  end.

Definition is_other (insight : json) : bool :=
  match detail_text insight with
  | Some text => negb (suggests (lower text)) && negb (states_fact (lower text))
  | None => false
  end.
End Categorize.

(** Lower-casing of the letters A to Z, which is [str.lower] on ASCII
    text. *)
Definition ascii_lower (s : str) : str :=
  map (fun c => if within 65 90 c then (c + 32)%N else c) s.

End Insights.

(* ================================================================== *)
(** ** A session: the public methods of [MeetingAssistant] in any order *)

Module Session.
Import Py Json Assistant.

Definition set_meeting_title (self : MeetingAssistant) (title : str) :=
  {| meeting_transcript := meeting_transcript self;
     current_summary := current_summary self;
     action_items := action_items self;
     conversation_context := conversation_context self;
     last_insight_time := last_insight_time self;
     insight_cooldown := insight_cooldown self;
     meeting_title := title;
     insight_callback := insight_callback self |}.

(** One call of a public method, with the reading of the clock and the
    behaviour of the completion collaborator during it. *)
Inductive operation : Type :=
| AddTranscript (text_segment : str) (current_time : Q) (create : completion)
| UpdateSummary (create : completion)
| ExtractActionItems (create : completion)
| SetMeetingTitle (title : str)
| SetInsightCallback (callback : option (json -> outcome unit)).

Definition apply (self : MeetingAssistant) (op : operation)
    : MeetingAssistant * list event :=
  match op with
  | AddTranscript text_segment current_time create =>
      add_transcript self text_segment current_time create
  | UpdateSummary create =>
      let '(self', _, ev) := update_summary self create in (self', ev)
  | ExtractActionItems create =>
      let '(self', _, ev) := extract_action_items self create in (self', ev)
  | SetMeetingTitle title => (set_meeting_title self title, [])
  | SetInsightCallback callback => (set_insight_callback self callback, [])
  end.

Fixpoint run (self : MeetingAssistant) (ops : list operation)
    : MeetingAssistant * list event :=
  match ops with
  | [] => (self, [])
  | op :: rest =>
      let (self1, ev1) := apply self op in
      let (self2, ev2) := run self1 rest in
      (self2, ev1 ++ ev2)
  end.

(** The segments the guard of line 40 lets through, in order. *)
Fixpoint accepted_segments (ops : list operation) : list str :=
  match ops with
  | [] => []
  | AddTranscript text_segment _ _ :: rest =>
      if truthy (strip text_segment)
      then text_segment :: accepted_segments rest
      else accepted_segments rest
  | _ :: rest => accepted_segments rest
  end.

(** A response that yields no insight batch: the call raised, the text
    did not parse, or the parsed value fails the test of line 208. *)
Definition fruitless (response : outcome str) : Prop :=
  match response with
  | Raises => True
  | Returns content =>
      match parse_response lbrace rbrace content with
      | Parsed insights_data => insights_batch insights_data = None
      | _ => True
      end
  end.

Definition is_array (v : json) : Prop :=
  match v with JArray _ => True | _ => False end.

Definition is_object (v : json) : Prop :=
  match v with JObject _ => True | _ => False end.

End Session.

(* ================================================================== *)
(** ** ui/cli.py: recording state, periodic refresh, callbacks *)

Module Cli.
Import Py Json.

(** The attributes of [MeetingSidekickCLI] that carry session data, with
    the assistant it drives and the capture flag of its recorder. *)
Record MeetingSidekickCLI : Type := {
  assistant : Assistant.MeetingAssistant;
  recorder_is_capturing : bool;     (* self.recorder.is_capturing *)
  recording : bool;
  transcript_text : list str;
  current_insights : json;
  summary_text : str;
  action_items : json;
  should_update : bool
}.

(** A refresh made by the CLI, with the completion calls it caused. *)
Inductive event : Type :=
| SummaryRefresh (calls : list Assistant.event)
| ActionItemExtraction (calls : list Assistant.event).

(** [self.summary_text = self.assistant.update_summary()] *)
Definition refresh_summary (self : MeetingSidekickCLI)
    (create : Assistant.completion) : MeetingSidekickCLI * list event :=
  let '(assistant', text, calls) :=
    Assistant.update_summary (assistant self) create in
  ({| assistant := assistant';
      recorder_is_capturing := recorder_is_capturing self;
      recording := recording self;
      transcript_text := transcript_text self;
      current_insights := current_insights self;
      summary_text := text;
      action_items := action_items self;
      should_update := should_update self |},
   [SummaryRefresh calls]).

(** [self.action_items = self.assistant.extract_action_items()] *)
Definition refresh_action_items (self : MeetingSidekickCLI)
    (create : Assistant.completion) : MeetingSidekickCLI * list event :=
  let '(assistant', items, calls) :=
    Assistant.extract_action_items (assistant self) create in
  ({| assistant := assistant';
      recorder_is_capturing := recorder_is_capturing self;
      recording := recording self;
      transcript_text := transcript_text self;
      current_insights := current_insights self;
      summary_text := summary_text self;
      action_items := items;
      should_update := should_update self |},
   [ActionItemExtraction calls]).

Definition set_flags (self : MeetingSidekickCLI) (flag : bool) :=
  {| assistant := assistant self;
     recorder_is_capturing := flag;
     recording := flag;
     transcript_text := transcript_text self;
     current_insights := current_insights self;
     summary_text := summary_text self;
     action_items := action_items self;
     should_update := flag |}.

(** [start_recording]: the flag, [recorder.start_capture()] and the
    update thread; the threads themselves run the loops modelled apart. *)
Definition start_recording (self : MeetingSidekickCLI) : MeetingSidekickCLI :=
  if recording self then self else set_flags self true.

(** [stop_recording]: the flags, then the final refreshes. *)
Definition stop_recording (self : MeetingSidekickCLI)
    (create : Assistant.completion) : MeetingSidekickCLI * list event :=
  if recording self then
    let (self1, ev1) := refresh_summary (set_flags self false) create in
    let (self2, ev2) := refresh_action_items self1 create in
    (self2, ev1 ++ ev2)
  else (self, []).

(** One turn of the loop of [update_thread_func], after the counter has
    been incremented to [update_counter]. *)
Definition update_turn (self : MeetingSidekickCLI) (update_counter : nat)
    (create : Assistant.completion) : MeetingSidekickCLI * list event :=
  let (self1, ev1) :=
    if update_counter mod 5 =? 0 then refresh_summary self create
    else (self, []) in
  let (self2, ev2) :=
    if update_counter mod 10 =? 0 then refresh_action_items self1 create
    else (self1, []) in
  (self2, ev1 ++ ev2).

(** The loop of [update_thread_func] from a given counter, one turn per
    element of [services] (the collaborator's behaviour during it). *)
Fixpoint update_loop (services : list Assistant.completion)
    (update_counter : nat) (self : MeetingSidekickCLI)
    : MeetingSidekickCLI * list event :=
  match services with
  | [] => (self, [])
  | create :: rest =>
      let update_counter := S update_counter in
      let (self1, ev1) := update_turn self update_counter create in
      let (self2, ev2) := update_loop rest update_counter self1 in
      (self2, ev1 ++ ev2)
  end.

(** [update_thread_func] *)
Definition update_thread_func (services : list Assistant.completion)
    (self : MeetingSidekickCLI) := update_loop services 0 self.

Definition summary_refreshes (tr : list event) : nat :=
  length (filter (fun e => match e with SummaryRefresh _ => true | _ => false end) tr).

Definition action_item_extractions (tr : list event) : nat :=
  length (filter (fun e => match e with ActionItemExtraction _ => true | _ => false end) tr).

(** The completion calls behind a trace of refreshes. *)
Definition calls_of (tr : list event) : list Assistant.event :=
  flat_map (fun e => match e with
                     | SummaryRefresh calls => calls
                     | ActionItemExtraction calls => calls
                     end) tr.

(** The two callables that get registered as the insight callback. *)
Inductive handler : Type :=
| on_new_insights     (* MeetingSidekickCLI.on_new_insights *)
| on_insight.         (* the closure of [run] in __main__.py *)

(** The application: the CLI, which callable the assistant currently
    holds, and the [notify_insight] calls made so far. *)
Record App : Type := {
  cli : MeetingSidekickCLI;
  insight_handler : option handler;
  notify_insight_calls : list json
}.

Definition set_assistant (self : MeetingSidekickCLI)
    (a : Assistant.MeetingAssistant) :=
  {| assistant := a;
     recorder_is_capturing := recorder_is_capturing self;
     recording := recording self;
     transcript_text := transcript_text self;
     current_insights := current_insights self;
     summary_text := summary_text self;
     action_items := action_items self;
     should_update := should_update self |}.

Definition set_current_insights (self : MeetingSidekickCLI) (insights : json) :=
  {| assistant := assistant self;
     recorder_is_capturing := recorder_is_capturing self;
     recording := recording self;
     transcript_text := transcript_text self;
     current_insights := insights;
     summary_text := summary_text self;
     action_items := action_items self;
     should_update := should_update self |}.

Definition set_transcript_text (self : MeetingSidekickCLI) (t : list str) :=
  {| assistant := assistant self;
     recorder_is_capturing := recorder_is_capturing self;
     recording := recording self;
     transcript_text := t;
     current_insights := current_insights self;
     summary_text := summary_text self;
     action_items := action_items self;
     should_update := should_update self |}.

(** The keys of a dict in the order of their first insertion. *)
Definition keys (pairs : list (str * json)) : list str :=
  rev (nodup (list_eq_dec N.eq_dec) (rev (map fst pairs))).

(** [for insight in insights]: the items of a list, the characters of a
    string, the keys of a dict; nothing else is iterable. *)
Definition iterate (insights : json) : option (list json) :=
  match insights with
  | JArray items => Some items
  | JString s => Some (map (fun c => JString [c]) s)
  | JObject pairs => Some (map JString (keys pairs))
  | _ => None
  end.

(** The [notify_insight] calls of the loop of [on_insight]: one per item,
    up to and including the first item that is no dict, on which
    [insight.get] raises. *)
Fixpoint notify_loop (items : list json) : list json :=
  match items with
  | [] => []
  | JObject pairs :: rest => JObject pairs :: notify_loop rest
  | item :: _ => [item]
  end.

(** Whether a handler returns, as the assistant sees it. *)
Definition callable (h : handler) : json -> outcome unit :=
  match h with
  | on_new_insights => fun _ => Returns tt
  | on_insight =>
      fun insights =>
        match iterate insights with
        | Some items =>
            if forallb (fun i => match i with JObject _ => true | _ => false end)
                 items
            then Returns tt else Raises
        | None => Raises
        end
  end.

(** [assistant.set_insight_callback(h)] *)
Definition register (app : App) (h : handler) : App :=
  {| cli := set_assistant (cli app)
              (Assistant.set_insight_callback (assistant (cli app))
                 (Some (callable h)));
     insight_handler := Some h;
     notify_insight_calls := notify_insight_calls app |}.

(** [MeetingSidekickCLI.__init__]: empty panels, and its own handler
    registered with the assistant. *)
Definition new_cli (a : Assistant.MeetingAssistant) : App :=
  register
    {| cli := {| assistant := a;
                 recorder_is_capturing := false;
                 recording := false;
                 transcript_text := [];
                 current_insights := JArray [];
                 summary_text := [];
                 action_items := JArray [];
                 should_update := false |};
       insight_handler := None;
       notify_insight_calls := [] |}
    on_new_insights.

(** Lines 66-73 of __main__.py: the CLI is built, then [on_insight] is
    registered. *)
Definition main_run (a : Assistant.MeetingAssistant) : App :=
  register (new_cli a) on_insight.

(** The registered callable runs on a batch. *)
Definition deliver (app : App) (batch : json) : App :=
  match insight_handler app with
  | Some on_new_insights =>
      {| cli := set_current_insights (cli app) batch;
         insight_handler := insight_handler app;
         notify_insight_calls := notify_insight_calls app |}
  | Some on_insight =>
      {| cli := cli app;
         insight_handler := insight_handler app;
         notify_insight_calls :=
           notify_insight_calls app
           ++ match iterate batch with
              | Some items => notify_loop items
              | None => []
              end |}
  | None => app
  end.

(** The batches the assistant passed to its callback. *)
Definition batches (tr : list Assistant.event) : list json :=
  flat_map (fun e => match e with
                     | Assistant.InsightCallback batch => [batch]
                     | _ => []
                     end) tr.

(** [on_new_transcription], with the callback of the assistant run where
    the assistant invokes it. *)
Definition on_new_transcription (app : App) (text : str) (current_time : Q)
    (create : Assistant.completion) : App :=
  let self := set_transcript_text (cli app) (transcript_text (cli app) ++ [text]) in
  let (a, tr) :=
    Assistant.add_transcript (assistant self) text current_time create in
  fold_left deliver (batches tr)
    {| cli := set_assistant self a;
       insight_handler := insight_handler app;
       notify_insight_calls := notify_insight_calls app |}.

(** The transcription callback over a sequence of segments. *)
Definition transcriptions (app : App) (calls : list Assistant.arrival) : App :=
  fold_left
    (fun app c =>
       on_new_transcription app (Assistant.segment c) (Assistant.at_time c)
         (Assistant.service c))
    calls app.

End Cli.

(* ================================================================== *)
(** ** Observations on the two loops of the recorder *)

Module Loops.
Import Py.

(** The texts the transcription callback was invoked with, in order. *)
Definition callback_texts (tr : list Recorder.event) : list str :=
  flat_map (fun e => match e with
                     | Recorder.Callback text => [text]
                     | _ => []
                     end) tr.

(** A segment as the consumer stores it: not empty, nothing to strip. *)
Definition trimmed (text : str) : Prop := text <> [] /\ strip text = text.

(** The frames delivered by the reads number [i] to [i + n - 1]. *)
Definition successful_reads (s : Recorder.stream) (i n : nat) : list bytes :=
  flat_map (fun k => match s k Recorder.read_size with
                     | Returns chunk => [chunk]
                     | Raises => []
                     end) (seq i n).

(** A recognizer and a callback that never raise. *)
Definition reliable (self : Recorder.SpeechRecognizer) : Prop :=
  (forall audio_np, Recorder.model self audio_np <> Raises)
  /\ (forall callback text,
        Recorder.new_transcription_callback self = Some callback ->
        callback text <> Raises).

(** A frame of whole 16-bit samples. *)
Definition whole_samples (frame : bytes) : Prop := Nat.Even (length frame).

End Loops.

(* ================================================================== *)
(** ** More concrete sessions *)

Module Fixture.
Import Py Json.

(** A recognizer that is down. *)
Definition broken : list Q -> outcome str := fun _ => Raises.

Definition broken_recognizer (queue : list bytes) : Recorder.SpeechRecognizer :=
  {| Recorder.audio_queue := queue;
     Recorder.model := broken;
     Recorder.transcription := [u "earlier"];
     Recorder.new_transcription_callback := Some (fun _ => Returns tt) |}.

(** A frame cut short: three bytes. *)
Definition torn_frame : bytes := [x00; x40; x00].

(** An input device whose every other read fails. *)
Definition flaky_device : Recorder.stream :=
  fun i n => if Nat.even i then Returns (repeat x00 (n * 2)) else Raises.

Definition insight (detail : string) : json :=
  JObject [(u "title", JString (u "T")); (u "detail", JString (u detail))].

Definition mixed_insights : list json :=
  [insight "the data suggest a delay"; insight "according to finance";
   insight "nothing special"; JObject [(u "title", JString (u "no detail"))]].

Definition fresh_cli : Cli.MeetingSidekickCLI :=
  Cli.cli (Cli.new_cli Scenario.three_segments).

End Fixture.

(* ================================================================== *)
(** ** Properties *)

Import Py Json.
Unset Implicit Arguments.

(** *** Lists and strings *)

Lemma last_n_short (A : Type) (n : nat) (l : list A) :
  length l <= n -> last_n n l = l.
Proof.
  intros H. unfold last_n.
  replace (length l - n) with 0 by lia. reflexivity.
Qed.

Lemma last_n_length (A : Type) (n : nat) (l : list A) :
  length (last_n n l) = Nat.min n (length l).
Proof. unfold last_n. rewrite length_skipn. lia. Qed.

Lemma last_n_app_last_n (A : Type) (n : nat) (l m : list A) :
  last_n n (last_n n l ++ m) = last_n n (l ++ m).
Proof.
  unfold last_n.
  rewrite !length_app, length_skipn, !skipn_app, skipn_skipn, length_skipn.
  f_equal.
  - f_equal. lia.
  - f_equal. lia.
Qed.

Lemma Qltb_lt (a b : Q) : Recorder.Qltb a b = true <-> (a < b)%Q.
Proof. unfold Recorder.Qltb, Qlt. apply Z.ltb_lt. Qed.

Lemma Qltb_ge (a b : Q) : Recorder.Qltb a b = false <-> (b <= a)%Q.
Proof. unfold Recorder.Qltb, Qle. apply Z.ltb_ge. Qed.

(** *** The rolling context *)

Module RollingContext.
Import Assistant.

Lemma cap_is_last_n (context : list str) :
  (if 20 <? length context then last_n 20 context else context)
  = last_n 20 context.
Proof.
  destruct (20 <? length context) eqn:E; [reflexivity|].
  apply Nat.ltb_ge in E. symmetry. now apply last_n_short.
Qed.

Lemma append_segment_context self x :
  conversation_context (append_segment self x)
  = last_n 20 (conversation_context self ++ [x]).
Proof. unfold append_segment; simpl. apply cap_is_last_n. Qed.

Lemma append_segment_transcript self x :
  meeting_transcript (append_segment self x) = meeting_transcript self ++ [x].
Proof. reflexivity. Qed.

(** The insight generator only ever moves [last_insight_time]. *)
Lemma generate_changes_time_only self now create :
  let self' := fst (generate_real_time_insights self now create) in
  self' = self \/ self' = set_last_insight_time self now.
Proof.
  unfold generate_real_time_insights.
  destruct (Qltb _ _); [now left|].
  destruct (_ <? 3); [now left|].
  destruct (create _); [|now left].
  destruct (parse_response _ _ _); try (now left).
  destruct (insights_batch _); [now right | now left].
Qed.

Lemma generate_context self now create :
  conversation_context (fst (generate_real_time_insights self now create))
  = conversation_context self.
Proof.
  destruct (generate_changes_time_only self now create) as [E|E];
    simpl in E; rewrite E; reflexivity.
Qed.

Lemma generate_transcript self now create :
  meeting_transcript (fst (generate_real_time_insights self now create))
  = meeting_transcript self.
Proof.
  destruct (generate_changes_time_only self now create) as [E|E];
    simpl in E; rewrite E; reflexivity.
Qed.

Lemma add_transcript_context self c :
  accepted c ->
  conversation_context
    (fst (add_transcript self (segment c) (at_time c) (service c)))
  = last_n 20 (conversation_context self ++ [segment c]).
Proof.
  intros H. unfold add_transcript. rewrite H.
  rewrite generate_context. apply append_segment_context.
Qed.

Lemma add_transcripts_context calls : forall self,
  length (conversation_context self) <= 20 ->
  Forall accepted calls ->
  conversation_context (fst (add_transcripts self calls))
  = last_n 20 (conversation_context self ++ map segment calls).
Proof.
  induction calls as [|c rest IH]; intros self Hlen Hall; simpl.
  - rewrite app_nil_r. symmetry. now apply last_n_short.
  - inversion Hall as [|? ? Hc Hrest]; subst.
    pose proof (add_transcript_context self c Hc) as Hstep.
    destruct (add_transcript self (segment c) (at_time c) (service c))
      as [self1 ev1] eqn:E1.
    assert (Hlen1 : length (conversation_context self1) <= 20).
    { simpl in Hstep. rewrite Hstep, last_n_length. lia. }
    specialize (IH self1 Hlen1 Hrest).
    destruct (add_transcripts self1 rest) as [self2 ev2] eqn:E2.
    simpl in *. rewrite IH, Hstep.
    rewrite last_n_app_last_n, <- app_assoc. reflexivity.
Qed.

End RollingContext.

(** C4. After any sequence of [add_transcript] calls on non-blank segments
    in a fresh session, the rolling context holds at most 20 segments: the
    most recently appended ones, oldest first.  With 25 segments these are
    the last 20. *)
Theorem context_keeps_last_20 (title : str) (calls : list Assistant.arrival) :
  Forall Assistant.accepted calls ->
  let context :=
    Assistant.conversation_context
      (fst (Assistant.add_transcripts (Assistant.init title) calls)) in
  context = skipn (length calls - 20) (map Assistant.segment calls)
  /\ length context <= 20
  /\ (length calls = 25 -> context = skipn 5 (map Assistant.segment calls)).
Proof.
  intros Hall context.
  assert (E : context = last_n 20 (map Assistant.segment calls)).
  { unfold context.
    rewrite RollingContext.add_transcripts_context; simpl; auto with arith. }
  repeat split.
  - rewrite E. unfold last_n. now rewrite length_map.
  - rewrite E, last_n_length. lia.
  - intros H25. rewrite E. unfold last_n. now rewrite length_map, H25.
Qed.

Lemma context_keeps_last_20_witness :
  Forall Assistant.accepted Scenario.twenty_five
  /\ Assistant.conversation_context
       (fst (Assistant.add_transcripts (Assistant.init Scenario.title)
               Scenario.twenty_five))
     = map Assistant.segment (map Scenario.numbered (seq 5 20)).
Proof.
  assert (H : Forall Assistant.accepted Scenario.twenty_five).
  { repeat constructor. }
  split; [exact H|].
  destruct (context_keeps_last_20 Scenario.title _ H) as [E _].
  rewrite E. reflexivity.
Defined.

(** *** Blank segments *)

(** C10. [add_transcript] on an empty or whitespace-only string changes
    nothing: transcript, rolling context, [last_insight_time], summary and
    action items are all as before (the whole state is), and no completion
    call is made (the trace is empty). *)
Theorem add_transcript_blank_is_noop
    (self : Assistant.MeetingAssistant) (text_segment : str)
    (current_time : Q) (create : Assistant.completion) :
  Forall (fun c => isspace c = true) text_segment ->
  Assistant.add_transcript self text_segment current_time create = (self, []).
Proof.
  intros Hblank. unfold Assistant.add_transcript.
  assert (E : lstrip text_segment = []).
  { induction Hblank as [|c t Hc _ IH]; simpl; [reflexivity|].
    now rewrite Hc. }
  unfold strip, rstrip. rewrite E. reflexivity.
Qed.

Lemma add_transcript_blank_is_noop_witness :
  Assistant.add_transcript Scenario.three_segments [32; 9; 10; 160]%N 100%Q
    (Scenario.answering Scenario.embedded_response)
  = (Scenario.three_segments, []).
Proof.
  apply add_transcript_blank_is_noop.
  repeat constructor.
Defined.

(** *** The insight gate *)

(** C3. [_generate_real_time_insights] calls the completion collaborator
    exactly when the cooldown has elapsed and the rolling context holds at
    least 3 segments; otherwise it returns with no call and the state as it
    was.  It never calls twice. *)
Theorem insight_call_iff_cooldown_and_context
    (self : Assistant.MeetingAssistant) (current_time : Q)
    (create : Assistant.completion) :
  let ready :=
    (Assistant.insight_cooldown self
       <= current_time - Assistant.last_insight_time self)%Q
    /\ 3 <= length (Assistant.conversation_context self) in
  let result := Assistant.generate_real_time_insights self current_time create in
  (Assistant.completion_calls (snd result) = 1 <-> ready)
  /\ (~ ready -> result = (self, []))
  /\ Assistant.completion_calls (snd result) <= 1.
Proof.
  intros ready result. subst ready result.
  unfold Assistant.generate_real_time_insights.
  destruct (Assistant.Qltb _ _) eqn:Ecool.
  { apply Qltb_lt in Ecool. simpl.
    repeat split; auto; try discriminate.
    intros [Hc _]. exfalso. revert Hc. now apply Qlt_not_le. }
  apply Qltb_ge in Ecool.
  destruct (_ <? 3) eqn:Elen.
  { apply Nat.ltb_lt in Elen. simpl.
    repeat split; auto; try discriminate. intros [_ Hl]. lia. }
  apply Nat.ltb_ge in Elen.
  assert (Hready :
    (Assistant.insight_cooldown self
       <= current_time - Assistant.last_insight_time self)%Q
    /\ 3 <= length (Assistant.conversation_context self)) by now split.
  destruct (create _); simpl.
  - destruct (Assistant.parse_response _ _ _); simpl;
      try (repeat split; auto; intros Hn; now destruct Hn).
    destruct (Assistant.insights_batch _); simpl;
      try (repeat split; auto; intros Hn; now destruct Hn).
    destruct (Assistant.insight_callback self); simpl;
      repeat split; auto; intros Hn; now destruct Hn.
  - repeat split; auto; intros Hn; now destruct Hn.
Qed.

(** The cooldown example: segments at t = 0, 5, 10 trigger no call (the
    context reaches 3 at t = 10, inside the cooldown); the segment at
    t = 30 triggers one. *)
Example cooldown_schedule :
  let early := [Scenario.call "a" 0; Scenario.call "b" 5; Scenario.call "c" 10] in
  let s := Assistant.init Scenario.title in
  Assistant.completion_calls (snd (Assistant.add_transcripts s early)) = 0
  /\ Assistant.completion_calls
       (snd (Assistant.add_transcripts s (early ++ [Scenario.call "d" 30]))) = 1.
Proof. split; vm_compute; reflexivity. Qed.

(** *** The summary *)

(** C6 as stated fails on its second half: after a successful refresh the
    stored summary is the text the collaborator returned, not the prompt
    that was sent. *)
Lemma summary_is_not_the_prompt :
  let self := Scenario.three_segments in
  let prompt :=
    Assistant.summary_prompt (Assistant.current_summary self)
      (join (u " ") (last_n 10 (Assistant.meeting_transcript self))) in
  let self' :=
    fst (fst (Assistant.update_summary self (Scenario.answering (u "new summary")))) in
  Assistant.current_summary self' = u "new summary"
  /\ Assistant.current_summary self' <> prompt.
Proof. split; [reflexivity | vm_compute; discriminate]. Qed.

(** C6, amended.  The one completion call of [update_summary] carries a
    prompt built from the previous summary and the most recent 10
    transcript segments.  If that call raises, the state, and the summary
    in it, is unchanged; if it returns, the summary is replaced by the
    returned text, which is also the result. *)
Theorem update_summary_keeps_or_replaces
    (self : Assistant.MeetingAssistant) (create : Assistant.completion) :
  Assistant.meeting_transcript self <> [] ->
  let request :=
    Assistant.summary_request (Assistant.current_summary self)
      (join (u " ") (last_n 10 (Assistant.meeting_transcript self))) in
  let result := Assistant.update_summary self create in
  snd result = [Assistant.Completion request]
  /\ (create request = Raises -> fst (fst result) = self)
  /\ (forall content, create request = Returns content ->
        fst result = (Assistant.set_current_summary self content, content)).
Proof.
  intros Hne request result. subst request result.
  unfold Assistant.update_summary.
  destruct (Assistant.meeting_transcript self) as [|x t] eqn:Et;
    [now elim Hne|].
  destruct (create _) as [content|]; simpl; repeat split;
    try discriminate; auto.
  intros c Hc. now inversion Hc.
Qed.

Lemma update_summary_keeps_or_replaces_witness :
  fst (fst (Assistant.update_summary Scenario.three_segments Scenario.failing))
  = Scenario.three_segments
  /\ Assistant.current_summary
       (fst (fst (Assistant.update_summary Scenario.three_segments
                    (Scenario.answering (u "new summary")))))
     = u "new summary".
Proof.
  assert (Hne : Assistant.meeting_transcript Scenario.three_segments <> [])
    by discriminate.
  split.
  - apply (update_summary_keeps_or_replaces _ Scenario.failing Hne). reflexivity.
  - destruct (update_summary_keeps_or_replaces _
                (Scenario.answering (u "new summary")) Hne) as [_ [_ H]].
    rewrite (H (u "new summary") eq_refl). reflexivity.
Defined.

(** With an empty transcript no call is made and nothing changes. *)
Lemma update_summary_empty_transcript self create :
  Assistant.meeting_transcript self = [] ->
  Assistant.update_summary self create = (self, [], []).
Proof. intros E. unfold Assistant.update_summary. now rewrite E. Qed.

(** *** Captured frames *)

Lemma capture_audio_frames s : forall iterations i self chunk,
  Recorder.stream_contract Recorder.capture_params s ->
  Forall (fun c => length c = 2 * Recorder.read_size) (Recorder.audio_queue self) ->
  In chunk (Recorder.audio_queue (Recorder.capture_audio s i iterations self)) ->
  length chunk = 2 * Recorder.read_size.
Proof.
  induction iterations as [|k IH]; intros i self chunk Hs Hq Hin; simpl in Hin.
  - rewrite Forall_forall in Hq. now apply Hq.
  - destruct (s i Recorder.read_size) as [audio_chunk|] eqn:Er.
    + eapply (IH (S i)); [exact Hs| |exact Hin].
      simpl. apply Forall_app. split; [exact Hq|].
      constructor; [|constructor].
      rewrite (Hs _ _ _ Er). simpl. lia.
    + now apply (IH (S i) self chunk Hs).
Qed.

(** C8 as stated fails: a captured frame holds 4000 samples, not 2500. *)
Lemma captured_frame_is_not_2500_samples :
  let self := Recorder.capture_audio Scenario.quiet_device 0 1 (Scenario.recognizer []) in
  exists chunk,
    Recorder.audio_queue self = [chunk]
    /\ length chunk = 2 * 4000
    /\ length chunk <> 2 * 2500.
Proof.
  eexists. split; [reflexivity|].
  split; [vm_compute; reflexivity | vm_compute; discriminate].
Qed.

(** C8, amended.  Every frame the capture loop enqueues is a buffer of
    exactly 4000 samples of 16 kHz mono 16-bit PCM, that is 8000 bytes:
    each device read asks for 4000 samples. *)
Theorem captured_frame_is_4000_samples
    (s : Recorder.stream) (iterations : nat) (self : Recorder.SpeechRecognizer)
    (chunk : bytes) :
  Recorder.stream_contract Recorder.capture_params s ->
  Recorder.audio_queue self = [] ->
  In chunk (Recorder.audio_queue (Recorder.capture_audio s 0 iterations self)) ->
  Recorder.read_size = 4000
  /\ Recorder.sample_width Recorder.capture_params = 2
  /\ Recorder.channels Recorder.capture_params = 1
  /\ Recorder.rate Recorder.capture_params = 16000%N
  /\ length chunk = 2 * 4000.
Proof.
  intros Hs Hq Hin. repeat split.
  apply (capture_audio_frames s iterations 0 self chunk Hs); [|exact Hin].
  rewrite Hq. constructor.
Qed.

Lemma quiet_device_contract :
  Recorder.stream_contract Recorder.capture_params Scenario.quiet_device.
Proof.
  intros i n b H. inversion H; subst.
  rewrite repeat_length. simpl. lia.
Qed.

Lemma captured_frame_is_4000_samples_witness :
  length (repeat x00 (4000 * 2)) = 2 * 4000.
Proof.
  apply (captured_frame_is_4000_samples Scenario.quiet_device 3
           (Scenario.recognizer []) (repeat x00 (4000 * 2))
           quiet_device_contract eq_refl).
  simpl. now left.
Defined.

(** *** The transcription window *)

Module Window.
Import Recorder.

(** A turn that brings the window to the trigger size enters the block of
    lines 95-114. *)
Lemma full_window_is_processed self chunk queue buffer :
  audio_queue self = chunk :: queue ->
  length (buffer ++ [chunk]) = 11 ->
  process_turn self buffer
  = process_window (set_audio_queue self queue) (buffer ++ [chunk]).
Proof.
  intros Hq Hlen. unfold process_turn. rewrite Hq, Hlen. reflexivity.
Qed.

(** Below the trigger size the chunk is only stored. *)
Lemma short_window_grows self chunk queue buffer :
  audio_queue self = chunk :: queue ->
  length (buffer ++ [chunk]) <= 10 ->
  process_turn self buffer
  = (set_audio_queue self queue, buffer ++ [chunk], []).
Proof.
  intros Hq Hlen. unfold process_turn. rewrite Hq.
  destruct (10 <? _) eqn:E; [|reflexivity].
  apply Nat.ltb_lt in E. lia.
Qed.

Lemma last_2_of_11 (A : Type) (l : list A) :
  length l = 11 -> length (last_n 2 l) = 2 /\ last_n 2 l = skipn 9 l.
Proof.
  intros H. split.
  - rewrite last_n_length, H. reflexivity.
  - unfold last_n. now rewrite H.
Qed.

End Window.

(** C1 as stated fails: a window of 11 silent frames is reset without any
    transcription attempt. *)
Lemma silent_window_is_not_transcribed :
  let buffer := repeat Scenario.silent_frame 10 in
  let self := Scenario.recognizer [Scenario.silent_frame] in
  length (buffer ++ [Scenario.silent_frame]) = 11
  /\ Recorder.transcribe_calls (snd (Recorder.process_turn self buffer)) = 0.
Proof. split; reflexivity. Qed.

(** C1, amended.  When a dequeued frame brings the window to 11 frames
    that decode to samples whose mean absolute amplitude exceeds 0.01,
    exactly one transcription attempt is made, on the normalized
    concatenation of those 11 frames; and if the recognizer and the
    transcription callback return, the window is left holding exactly its
    last 2 frames. *)
Theorem voiced_window_transcribed_once
    (self : Recorder.SpeechRecognizer) (chunk : bytes) (queue buffer : list bytes)
    (samples : list Z) :
  Recorder.audio_queue self = chunk :: queue ->
  length (buffer ++ [chunk]) = 11 ->
  Recorder.frombuffer_int16 (concat (buffer ++ [chunk])) = Some samples ->
  Recorder.exceeds (Recorder.mean_abs (Recorder.normalize samples))
    Recorder.silence_threshold = true ->
  let result := Recorder.process_turn self buffer in
  let audio_np := Recorder.normalize samples in
  Recorder.transcribe_calls (snd result) = 1
  /\ In (Recorder.Transcribe audio_np) (snd result)
  /\ (forall text,
        Recorder.model self audio_np = Returns text ->
        (forall callback,
           Recorder.new_transcription_callback self = Some callback ->
           callback (strip text) = Returns tt) ->
        snd (fst result) = last_n 2 (buffer ++ [chunk])
        /\ length (snd (fst result)) = 2).
Proof.
  intros Hq Hlen Hdec Hloud result audio_np. subst result audio_np.
  rewrite (Window.full_window_is_processed self chunk queue buffer Hq Hlen).
  unfold Recorder.process_window. rewrite Hdec, Hloud. simpl.
  pose proof (Window.last_2_of_11 _ (buffer ++ [chunk]) Hlen) as [H2 _].
  destruct (Recorder.model self _) as [result_text|] eqn:Em.
  - destruct (truthy (strip result_text)) eqn:Et.
    + destruct (Recorder.new_transcription_callback self) as [callback|] eqn:Ec.
      * destruct (callback (strip result_text)) as [[]|] eqn:Er; simpl;
          (split; [reflexivity|]); (split; [now left|]);
          intros text Htext Hcb; inversion Htext; subst text.
        -- now split.
        -- specialize (Hcb callback eq_refl). congruence.
      * simpl. split; [reflexivity|]. split; [now left|].
        intros text _ _. now split.
    + simpl. split; [reflexivity|]. split; [now left|].
      intros text _ _. now split.
  - simpl. split; [reflexivity|]. split; [now left|].
    intros text Htext. discriminate.
Qed.

Lemma voiced_window_transcribed_once_witness :
  let buffer := repeat Scenario.voiced_frame 10 in
  let self := Scenario.recognizer [Scenario.voiced_frame] in
  Recorder.transcribe_calls (snd (Recorder.process_turn self buffer)) = 1
  /\ snd (fst (Recorder.process_turn self buffer))
     = [Scenario.voiced_frame; Scenario.voiced_frame].
Proof.
  intros buffer self.
  destruct (voiced_window_transcribed_once self Scenario.voiced_frame []
              buffer (repeat 16384%Z 22) eq_refl eq_refl eq_refl eq_refl)
    as [Hone [_ Hreset]].
  split; [exact Hone|].
  destruct (Hreset (u " we should ship Friday ") eq_refl) as [E _].
  - intros callback Hc. inversion Hc. reflexivity.
  - rewrite E. reflexivity.
Defined.

(** Eleven frames enqueued before the consumer starts: ten turns fill the
    window, the eleventh processes it. *)
Lemma eleven_frames_one_window (self : Recorder.SpeechRecognizer)
    (frames : list bytes) :
  Recorder.audio_queue self = frames ->
  length frames = 11 ->
  Recorder.process_audio 11 self
  = Recorder.process_window (Recorder.set_audio_queue self []) frames.
Proof.
  intros Hq Hlen. destruct self as [q m t cb]. simpl in Hq. subst q.
  do 12 (destruct frames as [|? frames]; try discriminate).
  unfold Recorder.process_audio. cbn -[Recorder.process_window].
  destruct (Recorder.process_window _ _) as [[self1 window1] trace1].
  now rewrite app_nil_r.
Qed.

(** With a voiced signal and a stub recognizer, those eleven frames give
    one transcription call, one segment, one callback, and a window of the
    last two frames. *)
Example eleven_voiced_frames :
  Recorder.process_audio 11 (Scenario.recognizer (repeat Scenario.voiced_frame 11))
  = (Recorder.set_transcription (Scenario.recognizer [])
       [u "we should ship Friday"],
     [Scenario.voiced_frame; Scenario.voiced_frame],
     [Recorder.Transcribe (repeat (16384 / 32768)%Q 22);
      Recorder.Callback (u "we should ship Friday")]).
Proof. reflexivity. Qed.

(** C2. When a dequeued frame brings the window to 11 frames whose
    normalized mean absolute amplitude is below 0.01, the recognizer is not
    invoked, no segment is appended and no callback is made (the trace is
    empty and the recognizer object is only one queue entry shorter), and
    the window is reset to its trailing 2 frames. *)
Theorem silent_window_skipped_and_reset
    (self : Recorder.SpeechRecognizer) (chunk : bytes) (queue buffer : list bytes)
    (samples : list Z) (mean : Q) :
  Recorder.audio_queue self = chunk :: queue ->
  length (buffer ++ [chunk]) = 11 ->
  Recorder.frombuffer_int16 (concat (buffer ++ [chunk])) = Some samples ->
  Recorder.mean_abs (Recorder.normalize samples) = Some mean ->
  (mean < Recorder.silence_threshold)%Q ->
  Recorder.process_turn self buffer
  = (Recorder.set_audio_queue self queue, last_n 2 (buffer ++ [chunk]), [])
  /\ length (last_n 2 (buffer ++ [chunk])) = 2.
Proof.
  intros Hq Hlen Hdec Hmean Hsilent.
  rewrite (Window.full_window_is_processed self chunk queue buffer Hq Hlen).
  unfold Recorder.process_window. rewrite Hdec, Hmean. simpl.
  assert (E : Recorder.Qltb Recorder.silence_threshold mean = false).
  { apply Qltb_ge. now apply Qlt_le_weak. }
  rewrite E. split; [reflexivity|].
  now apply Window.last_2_of_11.
Qed.

Lemma silent_window_skipped_and_reset_witness :
  Recorder.process_turn (Scenario.recognizer [Scenario.silent_frame])
    (repeat Scenario.silent_frame 10)
  = (Scenario.recognizer [],
     [Scenario.silent_frame; Scenario.silent_frame], []).
Proof.
  apply (silent_window_skipped_and_reset
           (Scenario.recognizer [Scenario.silent_frame]) Scenario.silent_frame
           [] (repeat Scenario.silent_frame 10) (repeat 0%Z 22)
           _ eq_refl eq_refl eq_refl eq_refl).
  reflexivity.
Defined.

(** *** A successful insight generation *)

(** C9 as stated fails: the assistant has no current-insights attribute.
    Two generations that succeed with different batches leave the very same
    state, so nothing read from the state can be the latest batch; and the
    exported data is what it was before the generation. *)
Lemma insight_batch_is_not_stored :
  let self := Scenario.three_segments in
  let first := Assistant.generate_real_time_insights self 100
                 (Scenario.answering (Scenario.insight_object "A")) in
  let second := Assistant.generate_real_time_insights self 100
                  (Scenario.answering (Scenario.insight_object "Z")) in
  In (Assistant.InsightCallback (Scenario.batch_of "A")) (snd first)
  /\ In (Assistant.InsightCallback (Scenario.batch_of "Z")) (snd second)
  /\ fst first = fst second
  /\ (forall current_insights : Assistant.MeetingAssistant -> json,
        ~ (current_insights (fst first) = Scenario.batch_of "A"
           /\ current_insights (fst second) = Scenario.batch_of "Z"))
  /\ (forall date, Assistant.export_meeting_data (fst first) date
                   = Assistant.export_meeting_data self date).
Proof.
  intros self first second.
  assert (E : fst first = fst second) by reflexivity.
  split; [vm_compute; right; left; reflexivity|].
  split; [vm_compute; right; left; reflexivity|].
  split; [exact E|]. split; [|intros date; reflexivity].
  intros current_insights [H1 H2]. rewrite E, H2 in H1.
  vm_compute in H1. discriminate.
Qed.

(** C9, amended.  After a successful insight generation (the cooldown has
    elapsed, the context holds at least 3 segments, the response parses and
    carries a non-empty [insights] entry), [last_insight_time] is set to
    now and nothing else in the assistant changes; the insight callback, if
    one is registered, is invoked once with the batch; the data handed to
    the exporter is the same as before, and holds no insights. *)
Theorem successful_generation_effects
    (self : Assistant.MeetingAssistant) (current_time : Q)
    (create : Assistant.completion) (content : str) (insights_data batch : json) :
  (Assistant.insight_cooldown self
     <= current_time - Assistant.last_insight_time self)%Q ->
  3 <= length (Assistant.conversation_context self) ->
  let request :=
    Assistant.insights_request
      (join (u " ") (Assistant.conversation_context self)) in
  create request = Returns content ->
  Assistant.parse_response Assistant.lbrace Assistant.rbrace content
    = Assistant.Parsed insights_data ->
  Assistant.insights_batch insights_data = Some batch ->
  Assistant.generate_real_time_insights self current_time create
  = (Assistant.set_last_insight_time self current_time,
     Assistant.Completion request ::
       match Assistant.insight_callback self with
       | Some _ => [Assistant.InsightCallback batch]
       | None => []
       end)
  /\ (forall date,
        Assistant.export_meeting_data
          (Assistant.set_last_insight_time self current_time) date
        = Assistant.export_meeting_data self date).
Proof.
  intros Hcool Hlen request Hcreate Hparse Hbatch. subst request.
  split; [|reflexivity].
  unfold Assistant.generate_real_time_insights.
  apply Qltb_ge in Hcool. unfold Assistant.Qltb. rewrite Hcool.
  apply Nat.ltb_ge in Hlen. rewrite Hlen.
  now rewrite Hcreate, Hparse, Hbatch.
Qed.

Lemma successful_generation_effects_witness :
  Assistant.last_insight_time
    (fst (Assistant.generate_real_time_insights Scenario.three_segments 100
            (Scenario.answering Scenario.embedded_response)))
  = 100%Q.
Proof.
  assert (Hcool : (Assistant.insight_cooldown Scenario.three_segments
                   <= 100 - Assistant.last_insight_time Scenario.three_segments)%Q)
    by (unfold Qle; simpl; lia).
  assert (Hlen : 3 <= length (Assistant.conversation_context Scenario.three_segments))
    by (simpl; lia).
  destruct (successful_generation_effects Scenario.three_segments 100
              (Scenario.answering Scenario.embedded_response)
              Scenario.embedded_response
              (JObject [(u "insights", Scenario.batch_of "A")])
              (Scenario.batch_of "A") Hcool Hlen eq_refl eq_refl eq_refl)
    as [E _].
  rewrite E. reflexivity.
Defined.

(** *** Action items *)

(** When the decoder rejects the text, the stored list becomes the one
    sentinel item of line 141, which is also returned. *)
Lemma extract_action_items_decode_error self create content :
  Assistant.meeting_transcript self <> [] ->
  create (Assistant.action_items_request
            (join (u " ") (Assistant.meeting_transcript self)))
    = Returns content ->
  Assistant.parse_response Assistant.lbracket Assistant.rbracket content
    = Assistant.JSONDecodeError ->
  fst (Assistant.extract_action_items self create)
  = (Assistant.set_action_items self Assistant.parse_error_items,
     Assistant.parse_error_items).
Proof.
  intros Hne Hc Hp. unfold Assistant.extract_action_items.
  destruct (Assistant.meeting_transcript self) eqn:Et; [now elim Hne|].
  now rewrite Hc, Hp.
Qed.

(** When the text holds no bracket pair at all, the [ValueError] of line
    138 escapes [except json.JSONDecodeError]: a sentinel list is returned
    but the stored list is not touched. *)
Lemma extract_action_items_value_error self create content :
  Assistant.meeting_transcript self <> [] ->
  create (Assistant.action_items_request
            (join (u " ") (Assistant.meeting_transcript self)))
    = Returns content ->
  Assistant.parse_response Assistant.lbracket Assistant.rbracket content
    = Assistant.ValueError ->
  fst (Assistant.extract_action_items self create)
  = (self, Assistant.extract_error_items).
Proof.
  intros Hne Hc Hp. unfold Assistant.extract_action_items.
  destruct (Assistant.meeting_transcript self) eqn:Et; [now elim Hne|].
  now rewrite Hc, Hp.
Qed.

(** C5 at a response without brackets.  The claim asks that the stored
    action-item list be replaced by one sentinel item; here the call
    returns a one-item sentinel list, yet the stored list still holds the
    items of the previous extraction. *)
Theorem unbracketed_response_leaves_stale_items :
  let self := Scenario.three_segments in
  let response := u "No action items were mentioned." in
  let result := Assistant.extract_action_items self (Scenario.answering response) in
  Assistant.parse_response Assistant.lbracket Assistant.rbracket response
    = Assistant.ValueError
  /\ snd (fst result) = Assistant.extract_error_items
  /\ Assistant.action_items (fst (fst result))
     = JArray [JObject [(u "task", JString (u "send the report"))]]
  /\ Assistant.action_items (fst (fst result)) <> Assistant.extract_error_items
  /\ Assistant.action_items (fst (fst result)) <> Assistant.parse_error_items.
Proof.
  repeat split; try reflexivity; vm_compute; discriminate.
Qed.

(** The same session with a bracketed but malformed response: here the
    stored list is replaced by the sentinel. *)
Example malformed_array_replaces_items :
  let result :=
    Assistant.extract_action_items Scenario.three_segments
      (Scenario.answering (u "[send the report]")) in
  Assistant.action_items (fst (fst result)) = Assistant.parse_error_items
  /\ snd (fst result) = Assistant.parse_error_items.
Proof. split; reflexivity. Qed.

(** *** What the decoder consumes *)

Module Decoder.

Lemma suffix_refl s : suffix s s.
Proof. now exists []. Qed.

Lemma suffix_cons c r s : suffix r s -> suffix r (c :: s).
Proof. intros [p ->]. now exists (c :: p). Qed.

Lemma suffix_trans r s t : suffix r s -> suffix s t -> suffix r t.
Proof. intros [p ->] [q ->]. exists (q ++ p). now rewrite app_assoc. Qed.

Lemma suffix_app p r s : s = p ++ r -> suffix r s.
Proof. intros ->. now exists p. Qed.

Create HintDb decoder.
#[local] Hint Resolve suffix_refl suffix_cons suffix_app : decoder.

Lemma skip_ws_split s :
  exists w, s = w ++ skip_ws s /\ Forall (fun c => is_ws c = true) w.
Proof.
  induction s as [|c t [w [E Hw]]]; simpl.
  - exists []. now split.
  - destruct (is_ws c) eqn:Ec.
    + exists (c :: w). split; [simpl; now f_equal | now constructor].
    + exists []. now split.
Qed.

Lemma skip_ws_suffix s : suffix (skip_ws s) s.
Proof. destruct (skip_ws_split s) as [w [E _]]. now exists w. Qed.

Lemma skip_ws_nil s : skip_ws s = [] -> Forall (fun c => is_ws c = true) s.
Proof.
  intros H. destruct (skip_ws_split s) as [w [E Hw]].
  rewrite H, app_nil_r in E. now subst.
Qed.

Lemma skip_ws_all s : Forall (fun c => is_ws c = true) s -> skip_ws s = [].
Proof. induction 1 as [|c t Hc _ IH]; simpl; [reflexivity | now rewrite Hc]. Qed.

Lemma expect_cons c s t : expect c s = Some t -> s = c :: t.
Proof.
  destruct s as [|x s']; simpl; [discriminate|].
  destruct (x =? c)%N eqn:E; [|discriminate].
  apply N.eqb_eq in E. intros H. inversion H. now subst.
Qed.

Lemma hex4_suffix s n r : hex4 s = Some (n, r) -> suffix r s.
Proof.
  destruct s as [|a [|b [|c [|d rest]]]]; simpl; try discriminate.
  destruct (hex_value a), (hex_value b), (hex_value c), (hex_value d);
    try discriminate.
  intros H. inversion H; subst. now exists [a; b; c; d].
Qed.

Lemma low_surrogate_suffix hi s cp r :
  low_surrogate hi s = Some (cp, r) -> suffix r s.
Proof.
  unfold low_surrogate. destruct (within 55296 56319 hi); [|discriminate].
  destruct s as [|a [|b t]]; try discriminate.
  destruct ((a =? 92) && (b =? 117))%N; [|discriminate].
  destruct (hex4 t) as [[lo t']|] eqn:Eh; [|discriminate].
  destruct (within 56320 57343 lo); [|discriminate].
  intros H. inversion H; subst.
  apply hex4_suffix in Eh. auto with decoder.
Qed.

Lemma scanstring_suffix : forall fuel s acc x r,
  scanstring fuel s acc = Some (x, r) -> suffix r s.
Proof.
  induction fuel as [|fuel IH]; intros s acc x r H; simpl in H;
    [discriminate|].
  destruct s as [|c t]; [discriminate|].
  destruct (c =? 34)%N.
  { inversion H; subst. auto with decoder. }
  destruct (c =? 92)%N.
  - destruct t as [|e t']; [discriminate|].
    destruct (e =? 117)%N.
    + destruct (hex4 t') as [[hi t'']|] eqn:Eh; [|discriminate].
      apply hex4_suffix in Eh.
      destruct (low_surrogate hi t'') as [[cp t4]|] eqn:El.
      * apply low_surrogate_suffix in El. apply IH in H.
        do 2 apply suffix_cons.
        eapply suffix_trans; [exact H|].
        eapply suffix_trans; eassumption.
      * apply IH in H. do 2 apply suffix_cons.
        eapply suffix_trans; eassumption.
    + destruct (backslash e); [|discriminate].
      apply IH in H. auto with decoder.
  - destruct (c <? 32)%N; [discriminate|].
    apply IH in H. auto with decoder.
Qed.

#[local] Arguments scanstring : simpl never.

Lemma take_digits_split s : forall d r, take_digits s = (d, r) -> s = d ++ r.
Proof.
  induction s as [|c t IH]; simpl; intros d r H.
  - now inversion H.
  - destruct (is_digit c).
    + destruct (take_digits t) as [d' r'] eqn:E.
      inversion H; subst. simpl. f_equal. now apply IH.
    + now inversion H.
Qed.

Lemma int_part_split s i r : int_part s = Some (i, r) -> s = i ++ r.
Proof.
  destruct s as [|c t]; simpl; [discriminate|].
  destruct (c =? 48)%N.
  { intros H. now inversion H. }
  destruct (within 49 57 c); [|discriminate].
  destruct (take_digits t) as [d r'] eqn:E.
  intros H. inversion H; subst. simpl. f_equal.
  now apply take_digits_split.
Qed.

Lemma frac_part_split s f r : frac_part s = (f, r) -> s = f ++ r.
Proof.
  destruct s as [|c t]; simpl.
  { intros H. now inversion H. }
  destruct (c =? 46)%N.
  - destruct (take_digits t) as [[|d0 d] r'] eqn:E;
      intros H; inversion H; subst; [reflexivity|].
    simpl. f_equal. now apply take_digits_split in E.
  - intros H. now inversion H.
Qed.

Lemma exp_part_split s e r : exp_part s = (e, r) -> s = e ++ r.
Proof.
  destruct s as [|c t]; simpl.
  { intros H. now inversion H. }
  destruct ((c =? 101) || (c =? 69))%N.
  - destruct t as [|c1 t1].
    + simpl. intros H. now inversion H.
    + destruct ((c1 =? 45) || (c1 =? 43))%N.
      * destruct (take_digits t1) as [[|d0 d] r'] eqn:E;
          intros H; inversion H; subst; [reflexivity|].
        apply take_digits_split in E. simpl. now rewrite E.
      * destruct (take_digits (c1 :: t1)) as [[|d0 d] r'] eqn:E;
          intros H; inversion H; subst; [reflexivity|].
        apply take_digits_split in E. simpl in *. now rewrite E.
  - intros H. now inversion H.
Qed.

Lemma scan_number_suffix s v r :
  scan_number s = Some (v, r) -> suffix r s /\ is_number v.
Proof.
  unfold scan_number.
  set (head := match s with
               | c :: t => if (c =? 45)%N then (true, t) else (false, s)
               | [] => (false, s)
               end).
  assert (Hs : suffix (snd head) s).
  { subst head. destruct s as [|c t]; simpl; auto with decoder.
    destruct (c =? 45)%N; simpl; auto with decoder. }
  destruct head as [neg s1]. simpl in Hs.
  destruct (int_part s1) as [[i s2]|] eqn:Ei; [|discriminate].
  destruct (frac_part s2) as [f s3] eqn:Ef.
  destruct (exp_part s3) as [e s4] eqn:Ee.
  apply int_part_split in Ei. apply frac_part_split in Ef.
  apply exp_part_split in Ee.
  assert (H4 : suffix s4 s).
  { eapply suffix_trans; [|exact Hs]. subst s1 s2 s3.
    exists (i ++ f ++ e). now rewrite <- !app_assoc. }
  destruct f, e; intros H; inversion H; subst v r; now split.
Qed.

Lemma strip_prefix_split : forall lit s r,
  strip_prefix lit s = Some r -> s = lit ++ r.
Proof.
  induction lit as [|a lit IH]; intros s r H; simpl in *.
  - now inversion H.
  - destruct s as [|b s']; [discriminate|].
    destruct (a =? b)%N eqn:E; [|discriminate].
    apply N.eqb_eq in E. subst. f_equal. now apply IH.
Qed.

#[local] Arguments strip_prefix : simpl never.
#[local] Arguments scan_number : simpl never.

Section Containers.
Variable scan : str -> option (json * str).
Hypothesis scan_suffix : forall s v r, scan s = Some (v, r) -> suffix r s.

Lemma array_items_suffix : forall fuel s acc v r,
  array_items scan fuel s acc = Some (v, r) ->
  suffix r s /\ exists items, v = JArray items.
Proof.
  induction fuel as [|fuel IH]; intros s acc v r H; simpl in H;
    [discriminate|].
  destruct (scan s) as [[v1 r1]|] eqn:Es; [|discriminate].
  apply scan_suffix in Es.
  pose proof (skip_ws_suffix r1) as Hw.
  destruct (skip_ws r1) as [|c r'] eqn:Er; [discriminate|].
  assert (Hr' : suffix r' s).
  { eapply suffix_trans; [|exact Es].
    eapply suffix_trans; [|exact Hw]. auto with decoder. }
  destruct (c =? 93)%N.
  { inversion H; subst. split; [exact Hr' | eauto]. }
  destruct (c =? 44)%N; [|discriminate].
  apply IH in H. destruct H as [H Hv]. split; [|exact Hv].
  eapply suffix_trans; [exact H|].
  eapply suffix_trans; [apply skip_ws_suffix | exact Hr'].
Qed.

Lemma scan_array_suffix fuel s v r :
  scan_array scan fuel s = Some (v, r) ->
  suffix r s /\ exists items, v = JArray items.
Proof.
  unfold scan_array. pose proof (skip_ws_suffix s) as Hw.
  destruct (skip_ws s) as [|c t]; [discriminate|].
  destruct (c =? 93)%N.
  - intros H. inversion H; subst. split; [|eauto].
    eapply suffix_trans; [|exact Hw]. auto with decoder.
  - intros H. apply array_items_suffix in H. destruct H as [H Hv].
    split; [|exact Hv]. eapply suffix_trans; eassumption.
Qed.

(** An object is read up to and including a closing brace. *)
Lemma object_members_closed : forall fuel s acc v r,
  object_members scan fuel s acc = Some (v, r) ->
  (exists m, s = m ++ 125%N :: r) /\ exists pairs, v = JObject pairs.
Proof.
  induction fuel as [|fuel IH]; intros s acc v r H; simpl in H;
    [discriminate|].
  destruct (expect 34 s) as [t|] eqn:Eq; [|discriminate].
  apply expect_cons in Eq.
  destruct (scanstring (S (length t)) t []) as [[key r0]|] eqn:Ek;
    [|discriminate].
  apply scanstring_suffix in Ek.
  destruct (expect 58 (skip_ws r0)) as [r1|] eqn:Ec; [|discriminate].
  apply expect_cons in Ec.
  destruct (scan (skip_ws r1)) as [[v1 r2]|] eqn:Es; [|discriminate].
  apply scan_suffix in Es.
  assert (H2 : suffix r2 s).
  { eapply suffix_trans; [exact Es|].
    eapply suffix_trans; [apply skip_ws_suffix|].
    eapply suffix_trans; [apply (suffix_cons 58%N), suffix_refl|].
    rewrite <- Ec.
    eapply suffix_trans; [apply skip_ws_suffix|].
    eapply suffix_trans; [exact Ek|]. subst s. auto with decoder. }
  destruct (skip_ws_split r2) as [w [Ew _]].
  destruct (skip_ws r2) as [|c r3] eqn:E3; [discriminate|].
  destruct H2 as [p Hp].
  destruct (c =? 125)%N eqn:E125.
  { apply N.eqb_eq in E125. inversion H; subst v r c. split; [|eauto].
    exists (p ++ w). rewrite Hp, Ew. now rewrite <- app_assoc. }
  destruct (c =? 44)%N; [|discriminate].
  apply IH in H. destruct H as [[m Hm] Hv]. split; [|exact Hv].
  destruct (skip_ws_split r3) as [w3 [Ew3 _]].
  exists (p ++ w ++ c :: w3 ++ m).
  rewrite Hp, Ew, Ew3, Hm.
  rewrite <- !app_assoc. simpl. now rewrite <- !app_assoc.
Qed.

Lemma scan_object_closed fuel s v r :
  scan_object scan fuel s = Some (v, r) ->
  (exists m, s = m ++ 125%N :: r) /\ exists pairs, v = JObject pairs.
Proof.
  unfold scan_object. destruct (skip_ws_split s) as [w [Ew _]].
  destruct (skip_ws s) as [|c t]; [discriminate|].
  destruct (c =? 125)%N eqn:E125.
  - apply N.eqb_eq in E125. intros H. inversion H; subst. split; [|eauto].
    now exists w.
  - intros H. apply object_members_closed in H.
    destruct H as [[m Hm] Hv]. split; [|exact Hv].
    exists (w ++ m). rewrite Ew, Hm. now rewrite <- app_assoc.
Qed.
End Containers.

Lemma closed_suffix (s m r : str) : s = m ++ 125%N :: r -> suffix r s.
Proof. intros ->. exists (m ++ [125%N]). now rewrite <- app_assoc. Qed.

Lemma scan_once_suffix : forall fuel s v r,
  scan_once fuel s = Some (v, r) -> suffix r s.
Proof.
  induction fuel as [|fuel IH]; intros s v r H; simpl in H; [discriminate|].
  destruct s as [|c t]; [discriminate|].
  destruct (c =? 34)%N.
  { destruct (scanstring (S (length t)) t []) as [[x r0]|] eqn:E;
      [|discriminate].
    inversion H; subst. apply scanstring_suffix in E. auto with decoder. }
  destruct (c =? 123)%N.
  { apply (scan_object_closed (scan_once fuel) IH) in H.
    destruct H as [[m Hm] _]. apply suffix_cons. eapply closed_suffix, Hm. }
  destruct (c =? 91)%N.
  { apply (scan_array_suffix (scan_once fuel) IH) in H.
    destruct H as [H _]. auto with decoder. }
  repeat match type of H with
         | match strip_prefix ?lit ?x with _ => _ end = _ =>
             let E := fresh "E" in
             destruct (strip_prefix lit x) eqn:E;
             [apply strip_prefix_split in E; inversion H; subst;
              eauto with decoder |]
         | match scan_number ?x with _ => _ end = _ =>
             let E := fresh "E" in
             destruct (scan_number x) as [[? ?]|] eqn:E;
             [apply scan_number_suffix in E; destruct E as [E _];
              inversion H; subst; exact E |]
         end.
  discriminate.
Qed.

(** A decoded object was written between a ['{'] and a ['}'] . *)
Lemma scan_once_object fuel s pairs r :
  scan_once fuel s = Some (JObject pairs, r) ->
  exists m, s = 123%N :: m ++ 125%N :: r.
Proof.
  destruct fuel as [|fuel]; simpl; [discriminate|].
  destruct s as [|c t]; [discriminate|].
  destruct (c =? 34)%N.
  { destruct (scanstring (S (length t)) t []) as [[x r0]|]; discriminate. }
  destruct (c =? 123)%N eqn:E123.
  { apply N.eqb_eq in E123. subst c. intros H.
    apply (scan_object_closed (scan_once fuel) (scan_once_suffix fuel)) in H.
    destruct H as [[m Hm] _]. exists m. now rewrite Hm. }
  destruct (c =? 91)%N.
  { intros H.
    apply (scan_array_suffix (scan_once fuel) (scan_once_suffix fuel)) in H.
    destruct H as [_ [items Hv]]. discriminate. }
  intros H.
  repeat match type of H with
         | match strip_prefix ?lit ?x with _ => _ end = _ =>
             destruct (strip_prefix lit x); [discriminate|]
         | match scan_number ?x with _ => _ end = _ =>
             let E := fresh "E" in
             destruct (scan_number x) as [[? ?]|] eqn:E;
             [apply scan_number_suffix in E; destruct E as [_ E];
              inversion H; subst; now elim E |]
         end.
  discriminate.
Qed.

(** The text of a pure JSON object: whitespace, an opening brace, a
    closing brace at the end of the value, whitespace. *)
Lemma loads_object content pairs :
  loads content = Some (JObject pairs) ->
  exists w1 m w2,
    content = w1 ++ 123%N :: m ++ 125%N :: w2
    /\ Forall (fun c => is_ws c = true) w1
    /\ Forall (fun c => is_ws c = true) w2.
Proof.
  unfold loads. destruct (skip_ws_split content) as [w1 [E1 H1]].
  destruct (scan_once _ _) as [[v r]|] eqn:Es; [|discriminate].
  destruct (skip_ws r) eqn:Er; [|discriminate].
  intros H. inversion H; subst v.
  apply scan_once_object in Es. destruct Es as [m Hm].
  exists w1, m, r. split; [|split].
  - now rewrite E1 at 1; rewrite Hm.
  - exact H1.
  - now apply skip_ws_nil.
Qed.

End Decoder.

(** *** Recovering a bracketed text from a response *)

Module Recovery.
Import Assistant Decoder.

Lemma is_ws_isspace c : is_ws c = true -> isspace c = true.
Proof.
  unfold is_ws. rewrite !orb_true_iff, !N.eqb_eq.
  intros [[[-> | ->] | ->] | ->]; reflexivity.
Qed.

Lemma ws_are_spaces w :
  Forall (fun c => is_ws c = true) w -> Forall (fun c => isspace c = true) w.
Proof. apply Forall_impl. exact is_ws_isspace. Qed.

Lemma lstrip_spaces w s :
  Forall (fun c => isspace c = true) w -> lstrip (w ++ s) = lstrip s.
Proof. induction 1 as [|c t Hc _ IH]; simpl; [reflexivity | now rewrite Hc]. Qed.

Lemma lstrip_head c s : isspace c = false -> lstrip (c :: s) = c :: s.
Proof. intros H. simpl. now rewrite H. Qed.

Lemma lstrip_keeps_last c : isspace c = false ->
  forall l, exists l', lstrip (l ++ [c]) = l' ++ [c].
Proof.
  intros Hc. induction l as [|x l [l' IH]]; simpl.
  - rewrite Hc. now exists [].
  - destruct (isspace x); [now exists l'|]. now exists (x :: l).
Qed.

Lemma rstrip_head c s : isspace c = false -> exists t, rstrip (c :: s) = c :: t.
Proof.
  intros Hc. unfold rstrip. simpl.
  destruct (lstrip_keeps_last c Hc (rev s)) as [l' E].
  rewrite E, rev_app_distr. now exists (rev l').
Qed.

Lemma rstrip_spaces m c w :
  isspace c = false -> Forall (fun x => isspace x = true) w ->
  rstrip (m ++ c :: w) = m ++ [c].
Proof.
  intros Hc Hw. unfold rstrip.
  rewrite rev_app_distr. simpl. rewrite <- app_assoc. simpl.
  rewrite lstrip_spaces by now apply Forall_rev.
  rewrite lstrip_head by exact Hc.
  simpl. now rewrite rev_involutive.
Qed.

(** The first character of [l] that [f] rejects. *)
Lemma first_rejected (f : N -> bool) l :
  forallb f l = false ->
  exists w x t, l = w ++ x :: t /\ Forall (fun c => f c = true) w /\ f x = false.
Proof.
  induction l as [|a l IH]; simpl; [discriminate|].
  destruct (f a) eqn:Ea; simpl.
  - intros H. destruct (IH H) as [w [x [t [E [Hw Hx]]]]].
    exists (a :: w), x, t. subst. repeat split; auto.
  - intros _. exists [], a, l. repeat split; auto.
Qed.

Lemma contains_false_neq c s x :
  contains c s = false -> In x s -> (x =? c)%N = false.
Proof.
  unfold contains. intros H Hin.
  destruct (x =? c)%N eqn:E; [|reflexivity].
  apply N.eqb_eq in E. subst x.
  assert (Ht : existsb (N.eqb c) s = true).
  { apply existsb_exists. exists c. split; [exact Hin | apply N.eqb_refl]. }
  congruence.
Qed.

Lemma find_after opening pre rest :
  contains opening pre = false ->
  find opening (pre ++ opening :: rest) = Z.of_nat (length pre).
Proof.
  induction pre as [|x pre IH]; simpl; intros H.
  - now rewrite N.eqb_refl.
  - apply orb_false_iff in H. destruct H as [Hx Hpre].
    rewrite N.eqb_sym, Hx, (IH Hpre).
    destruct (Z.of_nat (length pre) <? 0)%Z eqn:E; [|lia].
    apply Z.ltb_lt in E. lia.
Qed.

Lemma rfind_absent closing post :
  contains closing post = false -> rfind closing post = (-1)%Z.
Proof.
  induction post as [|x post IH]; simpl; intros H; [reflexivity|].
  apply orb_false_iff in H. destruct H as [Hx Hpost].
  rewrite (IH Hpost). simpl. now rewrite N.eqb_sym, Hx.
Qed.

Lemma rfind_before closing front post :
  contains closing post = false ->
  rfind closing (front ++ closing :: post) = Z.of_nat (length front).
Proof.
  intros H. induction front as [|x front IH]; simpl.
  - now rewrite (rfind_absent closing post H), N.eqb_refl.
  - rewrite IH.
    destruct (0 <=? Z.of_nat (length front))%Z eqn:E; [lia|].
    apply Z.leb_gt in E. lia.
Qed.

Lemma slice_middle (pre mid post : str) :
  slice (Z.of_nat (length pre)) (Z.of_nat (length pre + length mid))
    (pre ++ mid ++ post) = mid.
Proof.
  unfold slice. rewrite Nat2Z.id.
  replace (Z.to_nat _) with (length mid) by lia.
  rewrite skipn_app, skipn_all, Nat.sub_diag. simpl.
  rewrite firstn_app, firstn_all, Nat.sub_diag. simpl.
  now rewrite app_nil_r.
Qed.

(** Prose around the bracketed text defeats the test of lines 128 and
    196. *)
Lemma prose_is_not_pure opening closing pre body post :
  isspace opening = false ->
  contains opening pre = false ->
  contains closing post = false ->
  forallb isspace (pre ++ post) = false ->
  let content := pre ++ opening :: body ++ closing :: post in
  startswith opening (strip content) && endswith closing (strip content)
  = false.
Proof.
  intros Hop Hpre Hpost Hprose content. subst content.
  rewrite forallb_app in Hprose.
  destruct (forallb isspace pre) eqn:Eall; simpl in Hprose.
  - (* the prose is all after the text *)
    apply andb_false_iff. right.
    rewrite forallb_forall in Eall.
    assert (Hw : Forall (fun c => isspace c = true) pre)
      by now apply Forall_forall.
    unfold strip. rewrite (lstrip_spaces _ _ Hw), (lstrip_head _ _ Hop).
    unfold endswith, rstrip. rewrite rev_involutive.
    change (opening :: body ++ closing :: post)
      with ((opening :: body) ++ closing :: post).
    rewrite rev_app_distr. simpl rev at 1.
    assert (Hrev : forallb isspace (rev post) = false).
    { destruct (forallb isspace (rev post)) eqn:E; [|reflexivity].
      rewrite forallb_forall in E.
      assert (forallb isspace post = true); [|congruence].
      apply forallb_forall. intros x Hx. apply E. now apply in_rev in Hx. }
    destruct (first_rejected isspace _ Hrev) as [w [d [t [E [Hws Hd]]]]].
    rewrite E, <- !app_assoc.
    rewrite (lstrip_spaces _ _ Hws). simpl. rewrite Hd. simpl.
    apply (contains_false_neq closing post d Hpost).
    apply in_rev. rewrite E. apply in_elt.
  - (* some prose comes before the text *)
    apply andb_false_iff. left.
    destruct (first_rejected isspace _ Eall) as [w [d [t [E [Hws Hd]]]]].
    unfold strip. rewrite E, <- app_assoc.
    rewrite (lstrip_spaces _ _ Hws). simpl app.
    rewrite (lstrip_head _ _ Hd).
    destruct (rstrip_head d (t ++ opening :: body ++ closing :: post) Hd)
      as [t' Et].
    rewrite Et. simpl.
    apply (contains_false_neq opening pre d Hpre).
    rewrite E. apply in_elt.
Qed.

(** A bracketed text inside prose is what reaches the decoder. *)
Lemma parse_response_embedded opening closing pre body post :
  isspace opening = false ->
  contains opening pre = false ->
  contains closing post = false ->
  forallb isspace (pre ++ post) = false ->
  parse_response opening closing (pre ++ opening :: body ++ closing :: post)
  = decode (opening :: body ++ [closing]).
Proof.
  intros Hop Hpre Hpost Hprose. unfold parse_response.
  rewrite (prose_is_not_pure opening closing pre body post Hop Hpre Hpost Hprose).
  rewrite (find_after opening pre _ Hpre).
  assert (Er : rfind closing (pre ++ opening :: body ++ closing :: post)
               = Z.of_nat (length (pre ++ opening :: body))).
  { replace (pre ++ opening :: body ++ closing :: post)
      with ((pre ++ opening :: body) ++ closing :: post)
      by (now rewrite <- app_assoc).
    apply (rfind_before closing _ post Hpost). }
  rewrite Er.
  replace (Z.of_nat (length (pre ++ opening :: body)) + 1)%Z
    with (Z.of_nat (length pre + length (opening :: body ++ [closing])))
    by (rewrite length_app; simpl; rewrite length_app; simpl; lia).
  assert (E : (0 <=? Z.of_nat (length pre))%Z
              && (Z.of_nat (length pre)
                  <? Z.of_nat (length pre
                               + length (opening :: body ++ [closing])))%Z
              = true).
  { apply andb_true_iff. split.
    - apply Z.leb_le. lia.
    - apply Z.ltb_lt. simpl. lia. }
  rewrite E. f_equal.
  replace (pre ++ opening :: body ++ closing :: post)
    with (pre ++ (opening :: body ++ [closing]) ++ post)
    by (simpl; now rewrite <- app_assoc).
  apply slice_middle.
Qed.

(** A response that is a JSON object as a whole is decoded as it is. *)
Lemma parse_response_pure_object content pairs :
  loads content = Some (JObject pairs) ->
  parse_response lbrace rbrace content = Parsed (JObject pairs).
Proof.
  intros H. destruct (loads_object content pairs H) as [w1 [m [w2 [E [H1 H2]]]]].
  unfold parse_response.
  assert (Es : strip content = (lbrace :: m) ++ [rbrace]).
  { unfold strip. rewrite E.
    rewrite (lstrip_spaces _ _ (ws_are_spaces _ H1)).
    rewrite lstrip_head by reflexivity.
    change (123%N :: m ++ 125%N :: w2) with ((123%N :: m) ++ 125%N :: w2).
    now rewrite rstrip_spaces by (reflexivity || now apply ws_are_spaces). }
  rewrite Es. unfold endswith. rewrite rev_app_distr. simpl.
  unfold decode. now rewrite H.
Qed.

End Recovery.

(** C7 as stated fails: a JSON object embedded in prose that itself uses
    braces is not recovered, because the text from the first ['{'] to the
    last ['}'] is then more than the object. *)
Lemma braces_in_prose_not_recovered :
  Scenario.braces_in_prose
    = u "fields {title, detail} follow: " ++ Scenario.insight_object "A"
  /\ loads (Scenario.insight_object "A")
     = Some (JObject [(u "insights", Scenario.batch_of "A")])
  /\ Assistant.parse_response Assistant.lbrace Assistant.rbrace
       Scenario.braces_in_prose
     = Assistant.JSONDecodeError
  /\ fst (Assistant.generate_real_time_insights Scenario.three_segments 100
            (Scenario.answering Scenario.braces_in_prose))
     = Scenario.three_segments
  /\ ~ In (Assistant.InsightCallback (Scenario.batch_of "A"))
         (snd (Assistant.generate_real_time_insights Scenario.three_segments
                 100 (Scenario.answering Scenario.braces_in_prose))).
Proof.
  repeat split; try reflexivity.
  vm_compute. intros [H|[]]. discriminate.
Qed.

(** C7, amended.  A response that is a JSON object as a whole is accepted
    as that object.  A response in which text from ['{'] to ['}'] is
    embedded in prose (some non-whitespace character) that has no ['{']
    before it and no ['}'] after it is decoded as that text, the substring
    between the first ['{'] and the last ['}'].  The example response
    parses to exactly one insight, with title "A" and detail "B". *)
Theorem insight_response_recovery :
  (forall content pairs,
     loads content = Some (JObject pairs) ->
     Assistant.parse_response Assistant.lbrace Assistant.rbrace content
     = Assistant.Parsed (JObject pairs))
  /\ (forall pre body post,
        contains Assistant.lbrace pre = false ->
        contains Assistant.rbrace post = false ->
        forallb isspace (pre ++ post) = false ->
        Assistant.parse_response Assistant.lbrace Assistant.rbrace
          (pre ++ Assistant.lbrace :: body ++ Assistant.rbrace :: post)
        = Assistant.decode (Assistant.lbrace :: body ++ [Assistant.rbrace]))
  /\ (let parsed := JObject [(u "insights", Scenario.batch_of "A")] in
      Assistant.parse_response Assistant.lbrace Assistant.rbrace
        Scenario.embedded_response = Assistant.Parsed parsed
      /\ Assistant.insights_batch parsed
         = Some (JArray [JObject [(u "title", JString (u "A"));
                                  (u "detail", JString (u "B"))]])
      /\ len (Scenario.batch_of "A") = Some 1).
Proof.
  split; [exact Recovery.parse_response_pure_object|].
  split.
  - intros pre body post. now apply Recovery.parse_response_embedded.
  - repeat split; reflexivity.
Qed.

Lemma insight_response_recovery_witness :
  Assistant.parse_response Assistant.lbrace Assistant.rbrace
    Scenario.embedded_response
  = Assistant.decode (Scenario.insight_object "A")
  /\ Assistant.parse_response Assistant.lbrace Assistant.rbrace
       (u "  " ++ Scenario.insight_object "A" ++ nl)
     = Assistant.Parsed (JObject [(u "insights", Scenario.batch_of "A")]).
Proof.
  split.
  - exact (proj1 (proj2 insight_response_recovery)
             (u "here is the result: ") (Scenario.insight_body "A")
             (u " thanks") eq_refl eq_refl eq_refl).
  - exact (proj1 insight_response_recovery
             (u "  " ++ Scenario.insight_object "A" ++ nl)
             [(u "insights", Scenario.batch_of "A")] eq_refl).
Defined.

(** The pure-JSON test strips with [str.strip], the decoder skips only
    space, tab, line feed and carriage return: after a vertical tab the
    response passes the test, is decoded whole and is rejected, although
    the text between its first ['{'] and last ['}'] decodes. *)
Example vertical_tab_response :
  let content := Scenario.after_vertical_tab in
  Assistant.parse_response Assistant.lbrace Assistant.rbrace content
    = Assistant.JSONDecodeError
  /\ Assistant.decode
       (slice (find Assistant.lbrace content)
          (rfind Assistant.rbrace content + 1) content)
     = Assistant.Parsed (JObject [(u "insights", Scenario.batch_of "A")]).
Proof. split; reflexivity. Qed.

(** *** The consumer loop over many turns *)

Module Consumer.
Import Recorder Loops.

Lemma lstrip_shape s :
  lstrip s = [] \/ exists c t, lstrip s = c :: t /\ isspace c = false.
Proof.
  induction s as [|c t IH]; simpl; [now left|].
  destruct (isspace c) eqn:E; [exact IH|]. right. now exists c, t.
Qed.

Lemma lstrip_idempotent s : lstrip (lstrip s) = lstrip s.
Proof.
  destruct (lstrip_shape s) as [E | [c [t [E Hc]]]]; rewrite E;
    [reflexivity | now apply Recovery.lstrip_head].
Qed.

Lemma strip_idempotent s : strip (strip s) = strip s.
Proof.
  unfold strip.
  assert (Hl : lstrip (rstrip (lstrip s)) = rstrip (lstrip s)).
  { destruct (lstrip_shape s) as [E | [c [t [E Hc]]]]; rewrite E.
    - reflexivity.
    - destruct (Recovery.rstrip_head c t Hc) as [t' Et]. rewrite Et.
      now apply Recovery.lstrip_head. }
  rewrite Hl. unfold rstrip at 1 2.
  rewrite rev_involutive, lstrip_idempotent. reflexivity.
Qed.

Lemma truthy_nonempty (s : str) : truthy s = true -> s <> [].
Proof. destruct s; [discriminate | discriminate]. Qed.

Ltac nothing_new self :=
  exists []; rewrite app_nil_r;
  split; [reflexivity|]; split; [constructor|];
  split; [now destruct (new_transcription_callback self) | simpl; lia].

Ltac unchanged_fields :=
  split; [reflexivity|]; split; [reflexivity|];
  split; [first [reflexivity | assumption]|].

(** What one pass through lines 95-114 can do. *)
Lemma process_window_spec self buffer :
  let r := process_window self buffer in
  audio_queue (fst (fst r)) = audio_queue self
  /\ model (fst (fst r)) = model self
  /\ new_transcription_callback (fst (fst r)) = new_transcription_callback self
  /\ (snd (fst r) = buffer \/ snd (fst r) = last_n 2 buffer)
  /\ exists new,
       transcription (fst (fst r)) = transcription self ++ new
       /\ Forall trimmed new
       /\ callback_texts (snd r)
          = match new_transcription_callback self with
            | Some _ => new
            | None => []
            end
       /\ length new <= transcribe_calls (snd r).
Proof.
  unfold process_window.
  destruct (frombuffer_int16 (concat buffer)) as [samples|]; simpl.
  2:{ unchanged_fields. split; [now left | nothing_new self]. }
  destruct (exceeds _ _); simpl.
  2:{ unchanged_fields. split; [now right | nothing_new self]. }
  destruct (model self _) as [result_text|]; simpl.
  2:{ unchanged_fields. split; [now left | nothing_new self]. }
  destruct (truthy (strip result_text)) eqn:Et; simpl.
  2:{ unchanged_fields. split; [now right | nothing_new self]. }
  assert (Htrim : Forall trimmed [strip result_text]).
  { constructor; [|constructor]. split;
      [now apply truthy_nonempty | apply strip_idempotent]. }
  destruct (new_transcription_callback self) as [callback|] eqn:Ec; simpl.
  - destruct (callback (strip result_text)) as [[]|]; simpl;
      unchanged_fields;
      (split; [(now left) || (now right) |]);
      exists [strip result_text];
      (split; [reflexivity|]); (split; [exact Htrim|]);
      (split; [reflexivity | unfold transcribe_calls; simpl; lia]).
  - unchanged_fields. split; [now right|].
    exists [strip result_text].
    split; [reflexivity|]. split; [exact Htrim|].
    split; [reflexivity | unfold transcribe_calls; simpl; lia].
Qed.

(** What one turn of the loop can do. *)
Lemma process_turn_spec self buffer :
  let r := process_turn self buffer in
  audio_queue (fst (fst r)) = skipn 1 (audio_queue self)
  /\ model (fst (fst r)) = model self
  /\ new_transcription_callback (fst (fst r)) = new_transcription_callback self
  /\ (exists dropped,
        buffer ++ firstn 1 (audio_queue self) = dropped ++ snd (fst r))
  /\ exists new,
       transcription (fst (fst r)) = transcription self ++ new
       /\ Forall trimmed new
       /\ callback_texts (snd r)
          = match new_transcription_callback self with
            | Some _ => new
            | None => []
            end
       /\ length new <= transcribe_calls (snd r).
Proof.
  unfold process_turn.
  destruct (audio_queue self) as [|chunk queue] eqn:Eq; simpl.
  { split; [exact Eq|]. split; [reflexivity|]. split; [reflexivity|].
    split; [|nothing_new self].
    exists []. now rewrite app_nil_r. }
  destruct (10 <? length (buffer ++ [chunk])); simpl.
  - pose proof (process_window_spec (set_audio_queue self queue)
                  (buffer ++ [chunk])) as H.
    simpl in H. destruct H as [Hq [Hm [Hc [Hb Hnew]]]].
    split; [exact Hq|]. split; [exact Hm|]. split; [exact Hc|].
    split; [|exact Hnew].
    destruct Hb as [-> | ->].
    + now exists [].
    + exists (firstn (length (buffer ++ [chunk]) - 2) (buffer ++ [chunk])).
      unfold last_n. now rewrite firstn_skipn.
  - unchanged_fields. split; [now exists [] | nothing_new self].
Qed.

Lemma process_loop_spec : forall turns self buffer,
  let r := process_loop turns self buffer in
  audio_queue (fst (fst r)) = skipn turns (audio_queue self)
  /\ model (fst (fst r)) = model self
  /\ new_transcription_callback (fst (fst r)) = new_transcription_callback self
  /\ (exists dropped,
        buffer ++ firstn turns (audio_queue self) = dropped ++ snd (fst r))
  /\ exists new,
       transcription (fst (fst r)) = transcription self ++ new
       /\ Forall trimmed new
       /\ callback_texts (snd r)
          = match new_transcription_callback self with
            | Some _ => new
            | None => []
            end
       /\ length new <= transcribe_calls (snd r).
Proof.
  induction turns as [|k IH]; intros self buffer.
  { simpl. unchanged_fields. split; [|nothing_new self].
    exists []. now rewrite app_nil_r. }
  cbv zeta. cbn [process_loop].
  pose proof (process_turn_spec self buffer) as H1.
  destruct (process_turn self buffer) as [[self1 buffer1] ev1].
  cbn [fst snd] in H1.
  destruct H1 as [Hq1 [Hm1 [Hc1 [[d1 Hd1] [new1 [Ht1 [Hn1 [Hcb1 Hl1]]]]]]]].
  pose proof (IH self1 buffer1) as H2.
  destruct (process_loop k self1 buffer1) as [[self2 buffer2] ev2].
  cbn [fst snd] in *.
  destruct H2 as [Hq2 [Hm2 [Hc2 [[d2 Hd2] [new2 [Ht2 [Hn2 [Hcb2 Hl2]]]]]]]].
  assert (Hsplit : firstn (S k) (audio_queue self)
                   = firstn 1 (audio_queue self)
                     ++ firstn k (skipn 1 (audio_queue self))).
  { destruct (audio_queue self); simpl; [now rewrite firstn_nil | reflexivity]. }
  split; [|split; [|split; [|split]]].
  - rewrite Hq2, Hq1. destruct (audio_queue self); [|reflexivity].
    now rewrite !skipn_nil.
  - congruence.
  - congruence.
  - exists (d1 ++ d2).
    rewrite Hq1 in Hd2.
    rewrite Hsplit, app_assoc, Hd1, <- app_assoc, Hd2, app_assoc.
    reflexivity.
  - exists (new1 ++ new2). rewrite Ht2, Ht1, app_assoc.
    split; [reflexivity|]. split; [now apply Forall_app|].
    split.
    + unfold callback_texts in *. rewrite flat_map_app, Hcb1, Hcb2, Hc1.
      now destruct (new_transcription_callback self).
    + unfold transcribe_calls in *.
      rewrite filter_app, !length_app. lia.
Qed.

Lemma frombuffer_even : forall n audio_data,
  length audio_data = 2 * n ->
  exists samples, frombuffer_int16 audio_data = Some samples
                  /\ length samples = n.
Proof.
  induction n as [|n IH]; intros audio_data H.
  - destruct audio_data; [|discriminate]. now exists [].
  - destruct audio_data as [|lo [|hi rest]]; try (simpl in H; lia).
    destruct (IH rest) as [l [E Hl]]; [simpl in H; lia|].
    exists (int16 lo hi :: l). simpl. rewrite E. split; [reflexivity|].
    simpl. now rewrite Hl.
Qed.

Lemma frombuffer_odd : forall n audio_data,
  length audio_data = 2 * n + 1 -> frombuffer_int16 audio_data = None.
Proof.
  induction n as [|n IH]; intros audio_data H.
  - destruct audio_data as [|b [|]]; try discriminate. reflexivity.
  - destruct audio_data as [|lo [|hi rest]]; try (simpl in H; lia).
    simpl. rewrite (IH rest); [reflexivity | simpl in H; lia].
Qed.

Lemma concat_whole frames :
  Forall whole_samples frames -> Nat.Even (length (concat frames)).
Proof.
  induction 1 as [|f fs [k Hk] _ [m Hm]]; simpl.
  - now exists 0.
  - exists (k + m). rewrite length_app. lia.
Qed.

End Consumer.

(** X1. Over any number of turns the consumer takes frames off the head
    of the queue, one per turn, and its window is always a trailing part
    of the frames it has taken, in arrival order: frames are neither
    reordered nor repeated. *)
Theorem consumer_takes_frames_in_order
    (turns : nat) (self : Recorder.SpeechRecognizer) (buffer : list bytes) :
  let r := Recorder.process_loop turns self buffer in
  Recorder.audio_queue (fst (fst r)) = skipn turns (Recorder.audio_queue self)
  /\ exists dropped,
       buffer ++ firstn turns (Recorder.audio_queue self)
       = dropped ++ snd (fst r).
Proof.
  pose proof (Consumer.process_loop_spec turns self buffer) as H.
  simpl in *. tauto.
Qed.

(** X2. The transcription log only grows: after any number of turns it is
    the old log followed by new segments, each of them non-empty and free
    of leading and trailing whitespace, and at most one per recognizer
    call. *)
Theorem transcription_log_only_grows
    (turns : nat) (self : Recorder.SpeechRecognizer) (buffer : list bytes) :
  let r := Recorder.process_loop turns self buffer in
  exists new,
    Recorder.transcription (fst (fst r)) = Recorder.transcription self ++ new
    /\ Forall Loops.trimmed new
    /\ length new <= Recorder.transcribe_calls (snd r).
Proof.
  destruct (Consumer.process_loop_spec turns self buffer)
    as [_ [_ [_ [_ [new [H1 [H2 [_ H4]]]]]]]].
  exists new. auto.
Qed.

(** X3. The transcription callback is invoked exactly once for every
    segment appended to the log, with that segment, in the same order; when
    no callback is registered it is never invoked. *)
Theorem callback_mirrors_the_log
    (turns : nat) (self : Recorder.SpeechRecognizer) (buffer : list bytes) :
  let r := Recorder.process_loop turns self buffer in
  match Recorder.new_transcription_callback self with
  | Some _ =>
      Recorder.transcription (fst (fst r))
      = Recorder.transcription self ++ Loops.callback_texts (snd r)
  | None => Loops.callback_texts (snd r) = []
  end.
Proof.
  destruct (Consumer.process_loop_spec turns self buffer)
    as [_ [_ [_ [_ [new [H1 [_ [H3 _]]]]]]]].
  cbv zeta in *. rewrite H3.
  destruct (Recorder.new_transcription_callback self);
    [exact H1 | reflexivity].
Qed.

(** X4. When the recognizer raises on a full voiced window, the window is
    not reset: it keeps every frame, nothing is appended to the log, and
    being still longer than 10 frames it is transcribed again, one frame
    longer, at the next frame. *)
Theorem recognizer_failure_keeps_window
    (self : Recorder.SpeechRecognizer) (chunk : bytes) (queue buffer : list bytes)
    (samples : list Z) :
  Recorder.audio_queue self = chunk :: queue ->
  10 < length (buffer ++ [chunk]) ->
  Recorder.frombuffer_int16 (concat (buffer ++ [chunk])) = Some samples ->
  Recorder.exceeds (Recorder.mean_abs (Recorder.normalize samples))
    Recorder.silence_threshold = true ->
  Recorder.model self (Recorder.normalize samples) = Raises ->
  Recorder.process_turn self buffer
  = (Recorder.set_audio_queue self queue, buffer ++ [chunk],
     [Recorder.Transcribe (Recorder.normalize samples)])
  /\ 10 < length (snd (fst (Recorder.process_turn self buffer))).
Proof.
  intros Hq Hlen Hdec Hloud Hraise.
  assert (E : Recorder.process_turn self buffer
              = (Recorder.set_audio_queue self queue, buffer ++ [chunk],
                 [Recorder.Transcribe (Recorder.normalize samples)])).
  { unfold Recorder.process_turn. rewrite Hq.
    apply Nat.ltb_lt in Hlen. rewrite Hlen.
    unfold Recorder.process_window. rewrite Hdec, Hloud. simpl.
    now rewrite Hraise. }
  rewrite E. split; [reflexivity | exact Hlen].
Qed.

Lemma recognizer_failure_keeps_window_witness :
  Recorder.process_turn
    (Fixture.broken_recognizer [Scenario.voiced_frame; Scenario.voiced_frame])
    (repeat Scenario.voiced_frame 10)
  = (Fixture.broken_recognizer [Scenario.voiced_frame],
     repeat Scenario.voiced_frame 11,
     [Recorder.Transcribe (repeat (16384 / 32768)%Q 22)]).
Proof.
  assert (Hlen : 10 < length (repeat Scenario.voiced_frame 10
                              ++ [Scenario.voiced_frame]))
    by (simpl; lia).
  exact (proj1 (recognizer_failure_keeps_window
                  (Fixture.broken_recognizer
                     [Scenario.voiced_frame; Scenario.voiced_frame])
                  Scenario.voiced_frame [Scenario.voiced_frame]
                  (repeat Scenario.voiced_frame 10) (repeat 16384%Z 22)
                  eq_refl Hlen eq_refl eq_refl eq_refl)).
Defined.

(** A full window whose bytes are not a whole number of 16-bit
    samples is never passed to the recognizer, and it is not reset
    either: the conversion error leaves it with every frame. *)
Theorem torn_window_is_kept
    (self : Recorder.SpeechRecognizer) (chunk : bytes) (queue buffer : list bytes) :
  Recorder.audio_queue self = chunk :: queue ->
  10 < length (buffer ++ [chunk]) ->
  Nat.Odd (length (concat (buffer ++ [chunk]))) ->
  Recorder.process_turn self buffer
  = (Recorder.set_audio_queue self queue, buffer ++ [chunk], []).
Proof.
  intros Hq Hlen [n Hodd].
  unfold Recorder.process_turn. rewrite Hq.
  apply Nat.ltb_lt in Hlen. rewrite Hlen.
  unfold Recorder.process_window.
  now rewrite (Consumer.frombuffer_odd n _ Hodd).
Qed.

Lemma torn_window_is_kept_witness :
  Recorder.process_turn (Scenario.recognizer [Fixture.torn_frame])
    (repeat Scenario.voiced_frame 10)
  = (Scenario.recognizer [],
     repeat Scenario.voiced_frame 10 ++ [Fixture.torn_frame], []).
Proof.
  apply (torn_window_is_kept (Scenario.recognizer [Fixture.torn_frame])
           Fixture.torn_frame [] (repeat Scenario.voiced_frame 10) eq_refl).
  - simpl. lia.
  - exists 21. reflexivity.
Defined.

Module Bounded.
Import Recorder Loops.

Lemma whole_window frames :
  Forall whole_samples frames ->
  exists samples, frombuffer_int16 (concat frames) = Some samples.
Proof.
  intros H. destruct (Consumer.concat_whole frames H) as [n Hn].
  destruct (Consumer.frombuffer_even n _ Hn) as [samples [E _]].
  now exists samples.
Qed.

(** With whole frames and collaborators that return, a pass through
    lines 95-114 always reaches the reset of line 114. *)
Lemma reliable_window_is_reset self buffer :
  reliable self -> Forall whole_samples buffer ->
  snd (fst (process_window self buffer)) = last_n 2 buffer.
Proof.
  intros [Hmodel Hcb] Hwhole. unfold process_window.
  destruct (whole_window buffer Hwhole) as [samples ->].
  destruct (exceeds _ _); [|reflexivity].
  destruct (model self _) as [result_text|] eqn:Em;
    [|now elim (Hmodel _ Em)].
  destruct (truthy _); [|reflexivity].
  destruct (new_transcription_callback self) as [callback|] eqn:Ec;
    [|reflexivity].
  destruct (callback _) as [[]|] eqn:Er; [reflexivity|].
  now elim (Hcb callback _ eq_refl Er).
Qed.

Lemma reliable_turn self buffer :
  reliable self ->
  Forall whole_samples (buffer ++ audio_queue self) ->
  length buffer <= 10 ->
  let r := process_turn self buffer in
  reliable (fst (fst r))
  /\ Forall whole_samples (snd (fst r) ++ audio_queue (fst (fst r)))
  /\ length (snd (fst r)) <= 10.
Proof.
  intros Hrel Hwhole Hlen.
  pose proof (Consumer.process_turn_spec self buffer) as Hspec.
  cbv zeta in *.
  destruct Hspec as [Hq [Hm [Hc [[dropped Hd] _]]]].
  apply Forall_app in Hwhole. destruct Hwhole as [Hb Hqueue].
  assert (Hrel' : reliable (fst (fst (process_turn self buffer)))).
  { destruct Hrel as [H1 H2]. split.
    - intros a. rewrite Hm. apply H1.
    - intros cb t. rewrite Hc. apply H2. }
  assert (Hwin : Forall whole_samples (buffer ++ firstn 1 (audio_queue self))).
  { apply Forall_app. split; [exact Hb|].
    destruct (audio_queue self); simpl; [constructor|].
    inversion Hqueue; subst. now constructor. }
  split; [exact Hrel'|]. split.
  - apply Forall_app. split.
    + rewrite Hd in Hwin. apply Forall_app in Hwin. tauto.
    + rewrite Hq. destruct (audio_queue self); simpl; [constructor|].
      now inversion Hqueue.
  - unfold process_turn.
    destruct (audio_queue self) as [|chunk queue]; simpl; [exact Hlen|].
    destruct (10 <? length (buffer ++ [chunk])) eqn:E.
    + rewrite reliable_window_is_reset; [|exact Hrel|exact Hwin].
      rewrite last_n_length. lia.
    + simpl. apply Nat.ltb_ge in E. exact E.
Qed.

End Bounded.

(** X5. While every frame is a whole number of samples and neither the
    recognizer nor the callback raises, the window never holds more than
    10 frames between two turns: every window that reaches 11 frames is
    cut back to 2. *)
Theorem window_stays_bounded
    (turns : nat) (self : Recorder.SpeechRecognizer) (buffer : list bytes) :
  Loops.reliable self ->
  Forall Loops.whole_samples (buffer ++ Recorder.audio_queue self) ->
  length buffer <= 10 ->
  length (snd (fst (Recorder.process_loop turns self buffer))) <= 10.
Proof.
  revert self buffer.
  induction turns as [|k IH]; intros self buffer Hrel Hwhole Hlen;
    [exact Hlen|].
  cbn [Recorder.process_loop].
  pose proof (Bounded.reliable_turn self buffer Hrel Hwhole Hlen) as H.
  cbv zeta in H.
  destruct (Recorder.process_turn self buffer) as [[self1 buffer1] ev1].
  cbn [fst snd] in H. destruct H as [Hrel1 [Hwhole1 Hlen1]].
  specialize (IH self1 buffer1 Hrel1 Hwhole1 Hlen1).
  destruct (Recorder.process_loop k self1 buffer1) as [[self2 buffer2] ev2].
  exact IH.
Qed.

Lemma scenario_recognizer_reliable queue :
  Loops.reliable (Scenario.recognizer queue).
Proof.
  split.
  - intros a. discriminate.
  - intros cb t H. inversion H; subst. discriminate.
Qed.

Lemma window_stays_bounded_witness :
  length (snd (fst (Recorder.process_loop 25
                      (Scenario.recognizer (repeat Scenario.voiced_frame 25))
                      []))) <= 10.
Proof.
  apply window_stays_bounded.
  - apply scenario_recognizer_reliable.
  - simpl. repeat constructor; exists 2; reflexivity.
  - simpl. lia.
Defined.

(** *** The capture loop *)

(** X6. The capture loop appends to the queue exactly the frames of the
    reads that succeeded, in the order they were read; a failed read is
    skipped without stopping the loop, and frames already queued stay in
    front. *)
Theorem capture_appends_successful_reads
    (s : Recorder.stream) (iterations i : nat) (self : Recorder.SpeechRecognizer) :
  Recorder.capture_audio s i iterations self
  = Recorder.set_audio_queue self
      (Recorder.audio_queue self ++ Loops.successful_reads s i iterations).
Proof.
  revert i self. induction iterations as [|k IH]; intros i self.
  - unfold Loops.successful_reads. simpl. rewrite app_nil_r.
    now destruct self.
  - unfold Loops.successful_reads in *. simpl.
    destruct (s i Recorder.read_size) as [chunk|]; rewrite IH.
    + simpl. now rewrite <- app_assoc.
    + reflexivity.
Qed.

(** A device whose every other read fails still fills the queue with the
    frames of the reads that worked. *)
Example flaky_capture :
  Recorder.audio_queue
    (Recorder.capture_audio Fixture.flaky_device 0 4 (Scenario.recognizer []))
  = [repeat x00 (2 * 4000); repeat x00 (2 * 4000)].
Proof. vm_compute. reflexivity. Qed.

(** *** The shape of what the parsers accept *)

Module Shape.
Import Assistant Decoder Session.

#[local] Arguments scanstring : simpl never.
#[local] Arguments strip_prefix : simpl never.
#[local] Arguments scan_number : simpl never.

Lemma digit_is_no_space c : within 48 57 c = true -> isspace c = false.
Proof.
  unfold within. rewrite andb_true_iff, !N.leb_le. intros [H1 H2].
  assert (H : (c = 48 \/ c = 49 \/ c = 50 \/ c = 51 \/ c = 52 \/ c = 53
               \/ c = 54 \/ c = 55 \/ c = 56 \/ c = 57)%N) by lia.
  repeat (destruct H as [-> | H]; [reflexivity|]). now subst.
Qed.

Lemma literal_head lit c t r :
  strip_prefix lit (c :: t) = Some r -> lit <> [] -> hd 0%N lit = c.
Proof.
  intros H Hne. apply strip_prefix_split in H.
  destruct lit as [|a lit']; [now elim Hne|].
  simpl in H. now inversion H.
Qed.

Lemma scan_number_head c t v r :
  scan_number (c :: t) = Some (v, r) -> c = 45%N \/ within 48 57 c = true.
Proof.
  unfold scan_number.
  destruct (c =? 45)%N eqn:E45; [apply N.eqb_eq in E45; now left|].
  right. revert H. unfold int_part.
  destruct (c =? 48)%N eqn:E48; [apply N.eqb_eq in E48; now subst|].
  destruct (within 49 57 c) eqn:Ew; [|discriminate].
  intros _. unfold within in *.
  apply andb_true_iff in Ew. destruct Ew as [H1 H2].
  apply N.leb_le in H1. apply andb_true_iff. split; [|exact H2].
  apply N.leb_le. lia.
Qed.

(** No value starts with a character that [str.strip] removes. *)
Lemma value_head fuel c t v r :
  scan_once fuel (c :: t) = Some (v, r) -> isspace c = false.
Proof.
  destruct fuel as [|fuel]; simpl; [discriminate|].
  destruct (c =? 34)%N eqn:E; [apply N.eqb_eq in E; now subst|]. clear E.
  destruct (c =? 123)%N eqn:E; [apply N.eqb_eq in E; now subst|]. clear E.
  destruct (c =? 91)%N eqn:E; [apply N.eqb_eq in E; now subst|]. clear E.
  intros H.
  repeat match type of H with
         | match strip_prefix ?lit ?x with _ => _ end = _ =>
             let E := fresh "E" in
             destruct (strip_prefix lit x) eqn:E;
             [apply literal_head in E; [now subst | discriminate] |]
         | match scan_number ?x with _ => _ end = _ =>
             let E := fresh "E" in
             destruct (scan_number x) as [[? ?]|] eqn:E;
             [apply scan_number_head in E; destruct E as [-> | E];
              [reflexivity | now apply digit_is_no_space] |]
         end.
  discriminate.
Qed.

Lemma scan_once_nil fuel : scan_once fuel [] = None.
Proof. now destruct fuel. Qed.

(** What starts with ['['] decodes to a list, what starts with ['{'] to a
    dict. *)
Lemma bracket_decides fuel t v r :
  (scan_once fuel (lbracket :: t) = Some (v, r) -> is_array v)
  /\ (scan_once fuel (lbrace :: t) = Some (v, r) -> is_object v).
Proof.
  destruct fuel as [|fuel]; simpl; [split; discriminate|]. split; intros H.
  - apply (scan_array_suffix (scan_once fuel) (scan_once_suffix fuel)) in H.
    destruct H as [_ [items ->]]. exact I.
  - apply (scan_object_closed (scan_once fuel) (scan_once_suffix fuel)) in H.
    destruct H as [_ [pairs ->]]. exact I.
Qed.

(** The first character of the value [json.loads] returns. *)
Lemma loads_head content v :
  loads content = Some v ->
  exists w c t fuel r,
    content = w ++ c :: t
    /\ Forall (fun x => is_ws x = true) w
    /\ isspace c = false
    /\ scan_once fuel (c :: t) = Some (v, r).
Proof.
  unfold loads. destruct (skip_ws_split content) as [w [E Hw]].
  destruct (scan_once _ (skip_ws content)) as [[v' r]|] eqn:Es;
    [|discriminate].
  destruct (skip_ws r); [|discriminate].
  intros H. inversion H; subst v'.
  destruct (skip_ws content) as [|c t] eqn:Ec.
  { now rewrite scan_once_nil in Es. }
  exists w, c, t, (S (length content)), r.
  repeat split; auto. now apply value_head in Es.
Qed.

Lemma find_hit c : forall s,
  (0 <= find c s)%Z ->
  exists pre rest, s = pre ++ c :: rest /\ find c s = Z.of_nat (length pre).
Proof.
  induction s as [|x s IH]; simpl; [lia|].
  destruct (x =? c)%N eqn:E.
  - apply N.eqb_eq in E. subst. intros _. now exists [], s.
  - destruct (find c s <? 0)%Z eqn:El; [lia|].
    apply Z.ltb_ge in El. intros _.
    destruct (IH El) as [pre [rest [Es Ef]]].
    exists (x :: pre), rest. split; [simpl; now f_equal|].
    rewrite Ef. simpl length. lia.
Qed.

(** In either branch, the text handed to the decoder makes it start on
    the opening bracket. *)
Lemma parsed_starts_with_bracket opening closing content v :
  isspace opening = false -> is_ws opening = false ->
  parse_response opening closing content = Parsed v ->
  exists fuel t r, scan_once fuel (opening :: t) = Some (v, r).
Proof.
  intros Hsp Hws. unfold parse_response.
  destruct (startswith opening (strip content)
            && endswith closing (strip content)) eqn:Epure.
  - apply andb_true_iff in Epure. destruct Epure as [Hstart _].
    unfold decode. destruct (loads content) as [v'|] eqn:El; [|discriminate].
    intros H. inversion H; subst v'.
    destruct (loads_head content v El) as [w [c [t [fuel [r [E [Hw [Hc Hs]]]]]]]].
    assert (Es : exists t', strip content = c :: t').
    { unfold strip. rewrite E.
      rewrite (Recovery.lstrip_spaces _ _ (Recovery.ws_are_spaces _ Hw)).
      rewrite (Recovery.lstrip_head _ _ Hc).
      apply Recovery.rstrip_head, Hc. }
    destruct Es as [t' Es]. rewrite Es in Hstart. simpl in Hstart.
    apply N.eqb_eq in Hstart. subst c. now exists fuel, t, r.
  - destruct ((0 <=? find opening content)%Z
              && (find opening content <? rfind closing content + 1)%Z)
      eqn:Efound; [|discriminate].
    apply andb_true_iff in Efound. destruct Efound as [H0 Hlt].
    apply Z.leb_le in H0. apply Z.ltb_lt in Hlt.
    destruct (find_hit opening content H0) as [pre [rest [Es Ef]]].
    unfold decode.
    destruct (loads (slice _ _ content)) as [v'|] eqn:El; [|discriminate].
    intros H. inversion H; subst v'.
    assert (Eslice : exists t, slice (find opening content)
                                 (rfind closing content + 1) content
                               = opening :: t).
    { assert (Hsk : skipn (length pre) content = opening :: rest).
      { rewrite Es, skipn_app, skipn_all, Nat.sub_diag. reflexivity. }
      unfold slice. rewrite Ef, Nat2Z.id, Hsk.
      destruct (Z.to_nat (rfind closing content + 1 - Z.of_nat (length pre)))
        as [|n] eqn:En; [lia|].
      simpl. eauto. }
    destruct Eslice as [t Et]. rewrite Et in El.
    unfold loads in El. simpl skip_ws in El. rewrite Hws in El.
    destruct (scan_once _ (opening :: t)) as [[v' r]|] eqn:Escan;
      [|discriminate].
    destruct (skip_ws r); [|discriminate].
    inversion El; subst v'. eauto.
Qed.

End Shape.

Lemma parsed_shape (content : str) (v : json) :
  (Assistant.parse_response Assistant.lbracket Assistant.rbracket content
     = Assistant.Parsed v -> Session.is_array v)
  /\ (Assistant.parse_response Assistant.lbrace Assistant.rbrace content
        = Assistant.Parsed v -> Session.is_object v).
Proof.
  split; intros H.
  - destruct (Shape.parsed_starts_with_bracket Assistant.lbracket
                Assistant.rbracket content v eq_refl eq_refl H)
      as [fuel [t [r Hs]]].
    now apply (Shape.bracket_decides fuel t v r).
  - destruct (Shape.parsed_starts_with_bracket Assistant.lbrace
                Assistant.rbrace content v eq_refl eq_refl H)
      as [fuel [t [r Hs]]].
    now apply (Shape.bracket_decides fuel t v r).
Qed.

(** X7. Whatever the completion collaborator answers, a response that
    [extract_action_items] accepts decodes to a JSON list, and a response
    that the insight parser accepts decodes to a JSON object: the bracket
    the text starts with decides the type of the value. *)
Theorem parsed_value_matches_bracket (content : str) (v : json) :
  (Assistant.parse_response Assistant.lbracket Assistant.rbracket content
     = Assistant.Parsed v -> Session.is_array v)
  /\ (Assistant.parse_response Assistant.lbrace Assistant.rbrace content
        = Assistant.Parsed v -> Session.is_object v).
Proof. exact (parsed_shape content v). Qed.

Lemma parsed_value_matches_bracket_witness :
  Session.is_object (JObject [(u "insights", Scenario.batch_of "A")]).
Proof.
  exact (proj2 (parsed_value_matches_bracket Scenario.embedded_response
                  (JObject [(u "insights", Scenario.batch_of "A")]))
           eq_refl).
Defined.

(** *** Sessions *)

Module Sessions.
Import Assistant Session.

Lemma apply_transcript self op :
  meeting_transcript (fst (apply self op))
  = meeting_transcript self ++ accepted_segments [op].
Proof.
  destruct op as [text now create | create | create | title | callback];
    simpl; try (now rewrite app_nil_r).
  - unfold add_transcript. destruct (truthy (strip text)).
    + now rewrite RollingContext.generate_transcript.
    + simpl. now rewrite app_nil_r.
  - unfold update_summary.
    destruct (meeting_transcript self) eqn:E; simpl;
      [now rewrite E | ].
    destruct (create _); simpl; rewrite E; now rewrite app_nil_r.
  - unfold extract_action_items.
    destruct (meeting_transcript self) eqn:E; simpl; [now rewrite E|].
    destruct (create _); simpl; [|rewrite E; now rewrite app_nil_r].
    destruct (parse_response _ _ _); simpl; rewrite E; now rewrite app_nil_r.
Qed.

Lemma apply_context self op :
  conversation_context self = last_n 20 (meeting_transcript self) ->
  conversation_context (fst (apply self op))
  = last_n 20 (meeting_transcript (fst (apply self op))).
Proof.
  intros Hinv.
  destruct op as [text now create | create | create | title | callback];
    simpl; try exact Hinv.
  - unfold add_transcript. destruct (truthy (strip text)); [|exact Hinv].
    rewrite RollingContext.generate_context,
      RollingContext.generate_transcript.
    rewrite RollingContext.append_segment_context. simpl.
    rewrite Hinv. apply last_n_app_last_n.
  - unfold update_summary.
    destruct (meeting_transcript self) eqn:E; simpl; [now rewrite Hinv, E|].
    destruct (create _); simpl; now rewrite Hinv, E.
  - unfold extract_action_items.
    destruct (meeting_transcript self) eqn:E; simpl; [now rewrite Hinv, E|].
    destruct (create _); simpl; [|now rewrite Hinv, E].
    destruct (parse_response _ _ _); simpl; now rewrite Hinv, E.
Qed.

Lemma apply_action_items self op :
  is_array (action_items self) -> is_array (action_items (fst (apply self op))).
Proof.
  intros Hinv.
  destruct op as [text now create | create | create | title | callback];
    simpl; try exact Hinv.
  - unfold add_transcript. destruct (truthy (strip text)); [|exact Hinv].
    destruct (RollingContext.generate_changes_time_only
                (append_segment self text) now create) as [E|E];
      simpl in E; rewrite E; exact Hinv.
  - unfold update_summary.
    destruct (meeting_transcript self); simpl; [exact Hinv|].
    destruct (create _); simpl; exact Hinv.
  - unfold extract_action_items.
    destruct (meeting_transcript self); simpl; [exact Hinv|].
    destruct (create _) as [content|]; simpl; [|exact Hinv].
    destruct (parse_response _ _ content) as [items| |] eqn:Ep; simpl;
      try exact Hinv; try exact I.
    now apply (proj1 (parsed_shape content items)).
Qed.

Lemma accepted_segments_app a b :
  accepted_segments (a ++ b) = accepted_segments a ++ accepted_segments b.
Proof.
  induction a as [|op a IH]; simpl; [reflexivity|].
  destruct op; try exact IH.
  destruct (truthy _); simpl; now rewrite IH.
Qed.

Lemma run_cons self op rest :
  fst (run self (op :: rest)) = fst (run (fst (apply self op)) rest).
Proof.
  simpl. destruct (apply self op) as [self1 ev1].
  simpl. now destruct (run self1 rest).
Qed.

Lemma run_transcript : forall ops self,
  meeting_transcript (fst (run self ops))
  = meeting_transcript self ++ accepted_segments ops.
Proof.
  induction ops as [|op rest IH]; intros self.
  - simpl. now rewrite app_nil_r.
  - rewrite run_cons, IH, apply_transcript.
    rewrite <- app_assoc. f_equal.
    change (op :: rest) with ([op] ++ rest).
    now rewrite accepted_segments_app.
Qed.

Lemma run_context : forall ops self,
  conversation_context self = last_n 20 (meeting_transcript self) ->
  conversation_context (fst (run self ops))
  = last_n 20 (meeting_transcript (fst (run self ops))).
Proof.
  induction ops as [|op rest IH]; intros self Hinv; [exact Hinv|].
  rewrite run_cons. apply IH. now apply apply_context.
Qed.

End Sessions.

(** X8. The transcript log is append-only: after any sequence of calls of
    the assistant's public methods it is the log as it was, followed by
    every segment that passed the blank check, in arrival order.  Nothing
    is ever removed or rewritten, and only [add_transcript] adds. *)
Theorem transcript_is_append_only
    (ops : list Session.operation) (self : Assistant.MeetingAssistant) :
  Assistant.meeting_transcript (fst (Session.run self ops))
  = Assistant.meeting_transcript self ++ Session.accepted_segments ops.
Proof. apply Sessions.run_transcript. Qed.

(** X9. In a session started by [__init__], after any sequence of calls
    of the public methods, the rolling context is exactly the last 20
    entries of the transcript log (all of it while it is shorter), and the
    log holds exactly the accepted segments. *)
Theorem context_is_tail_of_transcript
    (title : str) (ops : list Session.operation) :
  let self := fst (Session.run (Assistant.init title) ops) in
  Assistant.conversation_context self
  = last_n 20 (Assistant.meeting_transcript self)
  /\ Assistant.meeting_transcript self = Session.accepted_segments ops.
Proof.
  cbv zeta. split.
  - apply Sessions.run_context. reflexivity.
  - now rewrite Sessions.run_transcript.
Qed.

(** X10. The stored action items are always a JSON list: if they are one
    before, they are one after any sequence of calls of the public
    methods, whatever the completion collaborator returns. *)
Theorem action_items_stay_a_list
    (ops : list Session.operation) (self : Assistant.MeetingAssistant) :
  Session.is_array (Assistant.action_items self) ->
  Session.is_array (Assistant.action_items (fst (Session.run self ops))).
Proof.
  revert self. induction ops as [|op rest IH]; intros self Hinv;
    [exact Hinv|].
  rewrite Sessions.run_cons. apply IH. now apply Sessions.apply_action_items.
Qed.

Lemma action_items_stay_a_list_witness :
  Session.is_array
    (Assistant.action_items
       (fst (Session.run (Assistant.init Scenario.title)
               [Session.AddTranscript (u "ship it") 5 Scenario.failing;
                Session.ExtractActionItems
                  (Scenario.answering (u "1. [ship it] 2. {done}"))]))).
Proof.
  apply action_items_stay_a_list. exact I.
Defined.

(** *** The cooldown *)

Module Cooldown.
Import Assistant Session.

(** An accepted segment that arrives when the session is ready and gets
    no batch out of the collaborator costs one call and moves nothing but
    the transcript and the context. *)
Lemma fruitless_segment self c :
  2 <= length (conversation_context self) ->
  accepted c ->
  (insight_cooldown self <= at_time c - last_insight_time self)%Q ->
  (forall request, fruitless (service c request)) ->
  exists request,
    add_transcript self (segment c) (at_time c) (service c)
    = (append_segment self (segment c), [Completion request]).
Proof.
  intros Hlen Hacc Hready Hfruit.
  unfold add_transcript. rewrite Hacc.
  unfold generate_real_time_insights.
  assert (E1 : Qltb (at_time c - last_insight_time (append_segment self (segment c)))
                 (insight_cooldown (append_segment self (segment c))) = false).
  { simpl. now apply Qltb_ge. }
  rewrite E1.
  assert (E2 : (length (conversation_context (append_segment self (segment c)))
                <? 3) = false).
  { apply Nat.ltb_ge. rewrite RollingContext.append_segment_context.
    rewrite last_n_length, length_app. cbn [length]. lia. }
  rewrite E2.
  eexists. specialize (Hfruit
    (insights_request
       (join (u " ") (conversation_context (append_segment self (segment c)))))).
  unfold fruitless in Hfruit.
  destruct (service c _) as [content|]; [|reflexivity].
  destruct (parse_response lbrace rbrace content) as [d| |];
    try reflexivity.
  now rewrite Hfruit.
Qed.

Lemma append_segment_keeps_context_long self x :
  2 <= length (conversation_context self) ->
  2 <= length (conversation_context (append_segment self x)).
Proof.
  intros H. rewrite RollingContext.append_segment_context.
  rewrite last_n_length, length_app. cbn [length]. lia.
Qed.

End Cooldown.

(** X11. A fruitless attempt does not start the cooldown.  Once the
    cooldown has elapsed and the context is long enough, every accepted
    segment makes one completion call for as long as the collaborator
    raises or returns nothing usable: n such segments cost n calls, and
    [last_insight_time] stays where it was. *)
Theorem fruitless_attempts_are_repeated
    (calls : list Assistant.arrival) (self : Assistant.MeetingAssistant) :
  2 <= length (Assistant.conversation_context self) ->
  Forall (fun c =>
            Assistant.accepted c
            /\ (Assistant.insight_cooldown self
                <= Assistant.at_time c - Assistant.last_insight_time self)%Q
            /\ forall request, Session.fruitless (Assistant.service c request))
    calls ->
  let r := Assistant.add_transcripts self calls in
  Assistant.completion_calls (snd r) = length calls
  /\ Assistant.last_insight_time (fst r) = Assistant.last_insight_time self.
Proof.
  revert self. induction calls as [|c rest IH]; intros self Hlen Hall;
    [now split|].
  inversion Hall as [|? ? [Hacc [Hready Hfruit]] Hrest]; subst.
  destruct (Cooldown.fruitless_segment self c Hlen Hacc Hready Hfruit)
    as [request E].
  cbv zeta. cbn [Assistant.add_transcripts]. rewrite E.
  specialize (IH (Assistant.append_segment self (Assistant.segment c))
                (Cooldown.append_segment_keeps_context_long self _ Hlen) Hrest).
  cbv zeta in IH.
  destruct (Assistant.add_transcripts _ rest) as [self2 ev2].
  cbn [fst snd] in *. destruct IH as [IH1 IH2].
  split; [|exact IH2].
  unfold Assistant.completion_calls in *. simpl. now rewrite IH1.
Qed.

Lemma fruitless_attempts_are_repeated_witness :
  Assistant.completion_calls
    (snd (Assistant.add_transcripts Scenario.three_segments
            (map Scenario.numbered (seq 6 3)))) = 3.
Proof.
  apply (fruitless_attempts_are_repeated (map Scenario.numbered (seq 6 3))
           Scenario.three_segments).
  - simpl. lia.
  - repeat constructor; try (unfold Qle; simpl; lia).
Defined.

(** X12. A successful generation starts the cooldown: after it, no
    segment that arrives before the cooldown has elapsed causes a
    completion call or a callback, whatever the segment and whatever the
    collaborator would have answered. *)
Theorem success_starts_the_cooldown
    (self : Assistant.MeetingAssistant) (current_time later : Q)
    (create create' : Assistant.completion) (content text : str)
    (insights_data batch : json) :
  (Assistant.insight_cooldown self
     <= current_time - Assistant.last_insight_time self)%Q ->
  3 <= length (Assistant.conversation_context self) ->
  create (Assistant.insights_request
            (join (u " ") (Assistant.conversation_context self)))
    = Returns content ->
  Assistant.parse_response Assistant.lbrace Assistant.rbrace content
    = Assistant.Parsed insights_data ->
  Assistant.insights_batch insights_data = Some batch ->
  (later - current_time < Assistant.insight_cooldown self)%Q ->
  snd (Assistant.add_transcript
         (fst (Assistant.generate_real_time_insights self current_time create))
         text later create')
  = [].
Proof.
  intros Hcool Hlen Hcreate Hparse Hbatch Hsoon.
  unfold Assistant.generate_real_time_insights at 1.
  apply Qltb_ge in Hcool. unfold Assistant.Qltb. rewrite Hcool.
  apply Nat.ltb_ge in Hlen. rewrite Hlen.
  rewrite Hcreate, Hparse, Hbatch. cbn [fst].
  unfold Assistant.add_transcript.
  destruct (truthy (strip text)); [|reflexivity].
  unfold Assistant.generate_real_time_insights. simpl.
  apply Qltb_lt in Hsoon. unfold Assistant.Qltb. now rewrite Hsoon.
Qed.

Lemma success_starts_the_cooldown_witness :
  snd (Assistant.add_transcript
         (fst (Assistant.generate_real_time_insights Scenario.three_segments
                 100 (Scenario.answering Scenario.embedded_response)))
         (u "one more thing") 129
         (Scenario.answering Scenario.embedded_response))
  = [].
Proof.
  assert (Hcool : (Assistant.insight_cooldown Scenario.three_segments
                   <= 100 - Assistant.last_insight_time Scenario.three_segments)%Q)
    by (unfold Qle; simpl; lia).
  assert (Hlen : 3 <= length (Assistant.conversation_context Scenario.three_segments))
    by (simpl; lia).
  assert (Hsoon : (129 - 100 < Assistant.insight_cooldown Scenario.three_segments)%Q)
    by reflexivity.
  exact (success_starts_the_cooldown Scenario.three_segments 100 129
           (Scenario.answering Scenario.embedded_response)
           (Scenario.answering Scenario.embedded_response)
           Scenario.embedded_response (u "one more thing")
           (JObject [(u "insights", Scenario.batch_of "A")])
           (Scenario.batch_of "A") Hcool Hlen eq_refl eq_refl eq_refl Hsoon).
Defined.

(** *** File names *)

Module FileNames.
Import Exporter.

Lemma sanitize_filename_pointwise filename :
  sanitize_filename filename = map sanitize_char filename.
Proof.
  unfold sanitize_filename, invalid_chars, replace. simpl fold_left.
  rewrite !map_map. apply map_ext. intros c.
  unfold sanitize_char, contains, invalid_chars, underscore. simpl existsb.
  repeat match goal with
         | |- context [(c =? ?k)%N] =>
             destruct (N.eqb_spec c k) as [-> | ?]; [reflexivity|]; simpl
         end.
  reflexivity.
Qed.

Lemma sanitize_char_valid c : valid_char (sanitize_char c) = true.
Proof.
  unfold sanitize_char, valid_char.
  destruct (contains c invalid_chars) eqn:E; [reflexivity | now rewrite E].
Qed.

Lemma sanitize_char_fixes c : valid_char c = true -> sanitize_char c = c.
Proof.
  unfold sanitize_char, valid_char. now destruct (contains c invalid_chars).
Qed.

Lemma sanitize_clean filename :
  forallb valid_char (sanitize_filename filename) = true.
Proof.
  rewrite sanitize_filename_pointwise. apply forallb_forall.
  intros x Hx. apply in_map_iff in Hx. destruct Hx as [c [<- _]].
  apply sanitize_char_valid.
Qed.

Lemma sanitize_fixes filename :
  forallb valid_char filename = true -> sanitize_filename filename = filename.
Proof.
  intros H. rewrite sanitize_filename_pointwise.
  rewrite forallb_forall in H.
  rewrite <- (map_id filename) at 2. apply map_ext_in.
  intros c Hc. now apply sanitize_char_fixes, H.
Qed.

End FileNames.

(** X13. [sanitize_filename] works character by character: the result
    has the length of the name, every one of the nine characters of
    line 22 (angle brackets, colon, double quote, slash, backslash, bar,
    question mark, star) has become an underscore, every other character
    is where it was, and the result holds none of the nine. *)
Theorem sanitize_filename_replaces_in_place (filename : str) :
  Exporter.sanitize_filename filename = map Exporter.sanitize_char filename
  /\ length (Exporter.sanitize_filename filename) = length filename
  /\ forallb Exporter.valid_char (Exporter.sanitize_filename filename) = true
  /\ (forall c, Exporter.valid_char c = true -> Exporter.sanitize_char c = c)
  /\ (forall c, Exporter.valid_char c = false ->
                Exporter.sanitize_char c = Exporter.underscore).
Proof.
  split; [apply FileNames.sanitize_filename_pointwise|].
  split; [rewrite FileNames.sanitize_filename_pointwise; apply length_map|].
  split; [apply FileNames.sanitize_clean|].
  split; [exact FileNames.sanitize_char_fixes|].
  intros c. unfold Exporter.valid_char, Exporter.sanitize_char.
  now destruct (contains c Exporter.invalid_chars).
Qed.

(** X14. Sanitizing is idempotent, and a name without any of the nine
    characters is returned unchanged. *)
Theorem sanitize_filename_idempotent (filename : str) :
  Exporter.sanitize_filename (Exporter.sanitize_filename filename)
  = Exporter.sanitize_filename filename
  /\ (forallb Exporter.valid_char filename = true ->
      Exporter.sanitize_filename filename = filename).
Proof.
  split; [|apply FileNames.sanitize_fixes].
  apply FileNames.sanitize_fixes, FileNames.sanitize_clean.
Qed.

(** X15. Whatever the meeting title, the generated file name holds none
    of the nine characters, in particular no path separator, as long as
    the formatted date and the extension hold none: the export cannot
    leave its directory through the title. *)
Theorem generated_filename_is_clean (date_str meeting_title extension : str) :
  forallb Exporter.valid_char date_str = true ->
  forallb Exporter.valid_char extension = true ->
  let name := Exporter.generate_filename date_str meeting_title extension in
  forallb Exporter.valid_char name = true
  /\ contains 47%N name = false
  /\ contains 92%N name = false.
Proof.
  intros Hd He name.
  assert (H : forallb Exporter.valid_char name = true).
  { unfold name, Exporter.generate_filename.
    rewrite !forallb_app, FileNames.sanitize_clean, Hd, He. reflexivity. }
  split; [exact H|].
  rewrite forallb_forall in H.
  split.
  - destruct (contains 47%N name) eqn:E; [|reflexivity].
    unfold contains in E. apply existsb_exists in E.
    destruct E as [x [Hx Ex]]. apply N.eqb_eq in Ex. subst x.
    specialize (H _ Hx). discriminate.
  - destruct (contains 92%N name) eqn:E; [|reflexivity].
    unfold contains in E. apply existsb_exists in E.
    destruct E as [x [Hx Ex]]. apply N.eqb_eq in Ex. subst x.
    specialize (H _ Hx). discriminate.
Qed.

Lemma generated_filename_is_clean_witness :
  Exporter.generate_filename (u "2025-01-01_09-00-00") (u "../etc: Q1?") (u "md")
  = u ".._etc_ Q1__2025-01-01_09-00-00.md"
  /\ contains 47%N
       (Exporter.generate_filename (u "2025-01-01_09-00-00") (u "../etc: Q1?")
          (u "md")) = false.
Proof.
  split; [reflexivity|].
  apply (generated_filename_is_clean (u "2025-01-01_09-00-00")
           (u "../etc: Q1?") (u "md") eq_refl eq_refl).
Defined.

(** *** Categories *)

Module Categories.
Import Insights.

Section Lower.
Variable lower : str -> str.

Lemma exclusive insight text :
  detail_text insight = Some text ->
  (is_suggestion lower insight = suggests (lower text))
  /\ (is_fact lower insight
      = negb (suggests (lower text)) && states_fact (lower text))
  /\ (is_other lower insight
      = negb (suggests (lower text)) && negb (states_fact (lower text))).
Proof.
  intros E. unfold is_suggestion, is_fact, is_other. now rewrite E.
Qed.

Lemma categorize_from_spec : forall insights cats result,
  categorize_from lower cats insights = Some result ->
  suggestions result
  = suggestions cats ++ filter (is_suggestion lower) insights
  /\ facts result = facts cats ++ filter (is_fact lower) insights
  /\ other result = other cats ++ filter (is_other lower) insights
  /\ Forall (fun i => detail_text i <> None) insights.
Proof.
  induction insights as [|insight rest IH]; intros cats result H; simpl in H.
  - inversion H; subst. simpl. now rewrite !app_nil_r.
  - destruct (detail_text insight) as [text|] eqn:Ed; [|discriminate].
    destruct (exclusive insight text Ed) as [Es [Ef Eo]].
    assert (Hd : detail_text insight <> None) by congruence.
    simpl filter. rewrite Es, Ef, Eo.
    destruct (suggests (lower text)); simpl.
    + apply IH in H. simpl in H. destruct H as [H1 [H2 [H3 H4]]].
      rewrite H1, H2, H3, <- app_assoc. repeat split; auto.
    + destruct (states_fact (lower text)); simpl;
        apply IH in H; simpl in H; destruct H as [H1 [H2 [H3 H4]]];
        rewrite H1, H2, H3, <- ?app_assoc; repeat split; auto.
Qed.

Lemma categorize_from_none : forall insights cats,
  categorize_from lower cats insights = None
  <-> Exists (fun i => detail_text i = None) insights.
Proof.
  induction insights as [|insight rest IH]; intros cats; simpl.
  - split; [discriminate | intros H; inversion H].
  - destruct (detail_text insight) as [text|] eqn:Ed.
    + assert (Hstep : forall P : Prop,
                (P <-> Exists (fun i => detail_text i = None) rest) ->
                (P <-> Exists (fun i => detail_text i = None) (insight :: rest))).
      { intros P HP. rewrite HP. split; intros H.
        - now right.
        - inversion H; subst; [congruence | assumption]. }
      destruct (suggests (lower text)); [apply Hstep, IH|].
      destruct (states_fact (lower text)); apply Hstep, IH.
    + split; [intros _; now left | reflexivity].
Qed.

Lemma partition_length : forall insights,
  Forall (fun i => detail_text i <> None) insights ->
  length (filter (is_suggestion lower) insights)
  + length (filter (is_fact lower) insights)
  + length (filter (is_other lower) insights)
  = length insights.
Proof.
  induction 1 as [|insight rest Hd _ IH]; simpl; [reflexivity|].
  destruct (detail_text insight) as [text|] eqn:Ed; [|congruence].
  destruct (exclusive insight text Ed) as [Es [Ef Eo]].
  rewrite Es, Ef, Eo.
  destruct (suggests (lower text)), (states_fact (lower text)); simpl; lia.
Qed.

End Lower.
End Categories.

(** X16. When [categorize_insights] returns, it has put every insight in
    exactly one of the three lists and kept the order of arrival in each:
    "suggestions" holds the insights whose lower-cased detail contains
    suggest, should or could; "facts" holds those of the rest whose detail
    contains fact, data or according to; "other" holds what is left.  The
    three lengths add up to the number of insights. *)
Theorem categorize_insights_partitions
    (lower : str -> str) (insights : list json) (cats : Insights.categories) :
  Insights.categorize_insights lower insights = Some cats ->
  Insights.suggestions cats = filter (Insights.is_suggestion lower) insights
  /\ Insights.facts cats = filter (Insights.is_fact lower) insights
  /\ Insights.other cats = filter (Insights.is_other lower) insights
  /\ length (Insights.suggestions cats) + length (Insights.facts cats)
     + length (Insights.other cats) = length insights.
Proof.
  intros H. apply Categories.categorize_from_spec in H. simpl in H.
  destruct H as [H1 [H2 [H3 H4]]].
  rewrite H1, H2, H3. repeat split.
  now apply Categories.partition_length.
Qed.

Lemma categorize_insights_partitions_witness :
  exists cats,
    Insights.categorize_insights Insights.ascii_lower Fixture.mixed_insights
    = Some cats
    /\ Insights.suggestions cats = [Fixture.insight "the data suggest a delay"]
    /\ Insights.facts cats = [Fixture.insight "according to finance"].
Proof.
  eexists. split; [reflexivity|].
  destruct (categorize_insights_partitions Insights.ascii_lower
              Fixture.mixed_insights _ eq_refl) as [H1 [H2 _]].
  rewrite H1, H2. split; reflexivity.
Defined.

(** X17. [categorize_insights] raises, and returns no category at all,
    exactly when some insight is not a dict or carries a detail that is
    not a string; a missing detail counts as the empty string. *)
Theorem categorize_insights_fails_on_bad_detail
    (lower : str -> str) (insights : list json) :
  Insights.categorize_insights lower insights = None
  <-> Exists (fun i => Insights.detail_text i = None) insights.
Proof. apply Categories.categorize_from_none. Qed.

(** *** Recording and the periodic refresh *)

Module Refresh.
Import Cli.

Lemma refresh_summary_trace self create :
  exists calls, snd (refresh_summary self create) = [SummaryRefresh calls].
Proof.
  unfold refresh_summary.
  destruct (Assistant.update_summary _ _) as [[a t] calls]. now exists calls.
Qed.

Lemma refresh_action_items_trace self create :
  exists calls,
    snd (refresh_action_items self create) = [ActionItemExtraction calls].
Proof.
  unfold refresh_action_items.
  destruct (Assistant.extract_action_items _ _) as [[a t] calls].
  now exists calls.
Qed.

Lemma update_turn_counts self update_counter create :
  let tr := snd (update_turn self update_counter create) in
  summary_refreshes tr = (if update_counter mod 5 =? 0 then 1 else 0)
  /\ action_item_extractions tr = (if update_counter mod 10 =? 0 then 1 else 0).
Proof.
  unfold update_turn.
  destruct (update_counter mod 5 =? 0).
  - destruct (refresh_summary_trace self create) as [c1 E1].
    destruct (refresh_summary self create) as [self1 ev1]. simpl in E1.
    subst ev1.
    destruct (update_counter mod 10 =? 0).
    + destruct (refresh_action_items_trace self1 create) as [c2 E2].
      destruct (refresh_action_items self1 create) as [self2 ev2].
      simpl in E2. subst ev2. now split.
    + now split.
  - destruct (update_counter mod 10 =? 0).
    + destruct (refresh_action_items_trace self create) as [c2 E2].
      destruct (refresh_action_items self create) as [self2 ev2].
      simpl in E2. subst ev2. now split.
    + now split.
Qed.

Lemma div_step (k c : nat) : 0 < k ->
  S c / k = c / k + (if S c mod k =? 0 then 1 else 0).
Proof.
  intros Hk.
  pose proof (Nat.div_mod_eq c k) as H1.
  pose proof (Nat.div_mod_eq (S c) k) as H2.
  pose proof (Nat.mod_upper_bound c k ltac:(lia)) as H3.
  pose proof (Nat.mod_upper_bound (S c) k ltac:(lia)) as H4.
  destruct (S c mod k =? 0) eqn:E.
  - apply Nat.eqb_eq in E. nia.
  - apply Nat.eqb_neq in E. nia.
Qed.

Lemma update_loop_counts : forall services update_counter self,
  let tr := snd (update_loop services update_counter self) in
  summary_refreshes tr + update_counter / 5
    = (update_counter + length services) / 5
  /\ action_item_extractions tr + update_counter / 10
     = (update_counter + length services) / 10.
Proof.
  induction services as [|create rest IH]; intros update_counter self.
  - simpl. now rewrite Nat.add_0_r.
  - cbv zeta. cbn [update_loop length].
    pose proof (update_turn_counts self (S update_counter) create) as H1.
    cbv zeta in H1.
    destruct (update_turn self (S update_counter) create) as [self1 ev1].
    pose proof (IH (S update_counter) self1) as H2. cbv zeta in H2.
    destruct (update_loop rest (S update_counter) self1) as [self2 ev2].
    cbn [fst snd] in *. destruct H1 as [H1s H1a]. destruct H2 as [H2s H2a].
    unfold summary_refreshes, action_item_extractions in *.
    rewrite !filter_app, !length_app.
    rewrite (div_step 5 update_counter) in H2s by lia.
    rewrite (div_step 10 update_counter) in H2a by lia.
    replace (update_counter + S (length rest))
      with (S update_counter + length rest) by lia.
    split; lia.
Qed.

End Refresh.

(** X18. Over n turns of the update loop the summary is refreshed n / 5
    times and the action items are extracted n / 10 times: every 5th and
    every 10th turn, counted from the start of the thread. *)
Theorem refresh_cadence
    (services : list Assistant.completion) (self : Cli.MeetingSidekickCLI) :
  let tr := snd (Cli.update_thread_func services self) in
  Cli.summary_refreshes tr = length services / 5
  /\ Cli.action_item_extractions tr = length services / 10.
Proof.
  pose proof (Refresh.update_loop_counts services 0 self) as H.
  cbv zeta in *. unfold Cli.update_thread_func.
  simpl in H. rewrite !Nat.add_0_r in H. exact H.
Qed.

(** X19. Stopping is idempotent: a second [stop_recording] makes no
    refresh, hence no completion call, and changes nothing; and so is
    starting. *)
Theorem stop_recording_twice
    (self : Cli.MeetingSidekickCLI) (create create' : Assistant.completion) :
  let stopped := fst (Cli.stop_recording self create) in
  Cli.stop_recording stopped create' = (stopped, [])
  /\ Cli.start_recording (Cli.start_recording self) = Cli.start_recording self.
Proof.
  cbv zeta. split.
  - assert (E : Cli.recording (fst (Cli.stop_recording self create)) = false).
    { unfold Cli.stop_recording.
      destruct (Cli.recording self) eqn:Er; [|exact Er].
      unfold Cli.refresh_summary, Cli.refresh_action_items.
      destruct (Assistant.update_summary _ _) as [[a1 t1] c1]. simpl.
      destruct (Assistant.extract_action_items _ _) as [[a2 t2] c2].
      reflexivity. }
    set (stopped := fst (Cli.stop_recording self create)) in *.
    unfold Cli.stop_recording. now rewrite E.
  - unfold Cli.start_recording.
    destruct (Cli.recording self) eqn:Er; [now rewrite Er | reflexivity].
Qed.

(** X20. Stopping a recording with a transcript makes exactly two
    completion calls, the summary request first and then the action-item
    request over the whole transcript; stopping one without a transcript
    makes none, and shows an empty summary and no action items. *)
Theorem stop_recording_final_pass
    (self : Cli.MeetingSidekickCLI) (create : Assistant.completion) :
  Cli.recording self = true ->
  let a := Cli.assistant self in
  let transcript := Assistant.meeting_transcript a in
  let r := Cli.stop_recording self create in
  (transcript <> [] ->
   map (fun e => match e with
                 | Assistant.Completion request => Some request
                 | _ => None
                 end) (Cli.calls_of (snd r))
   = [Some (Assistant.summary_request (Assistant.current_summary a)
              (join (u " ") (last_n 10 transcript)));
      Some (Assistant.action_items_request (join (u " ") transcript))])
  /\ (transcript = [] ->
      Cli.calls_of (snd r) = []
      /\ Cli.summary_text (fst r) = []
      /\ Cli.action_items (fst r) = JArray []).
Proof.
  intros Hrec a transcript r. subst a transcript r.
  unfold Cli.stop_recording. rewrite Hrec.
  unfold Cli.refresh_summary, Cli.refresh_action_items.
  unfold Assistant.update_summary. simpl Cli.assistant.
  destruct (Assistant.meeting_transcript (Cli.assistant self)) as [|x t] eqn:Et.
  - split; [intros H; now elim H|]. intros _.
    simpl. unfold Assistant.extract_action_items. simpl. rewrite Et.
    simpl. repeat split.
  - split; [intros _ | discriminate].
    destruct (create _) as [content|]; simpl;
      unfold Assistant.extract_action_items; simpl; rewrite Et;
      destruct (create (Assistant.action_items_request _)) as [c2|];
      simpl; try reflexivity;
      destruct (Assistant.parse_response _ _ c2); reflexivity.
Qed.

Lemma stop_recording_final_pass_witness :
  length (Cli.calls_of
            (snd (Cli.stop_recording
                    (Cli.start_recording Fixture.fresh_cli)
                    Scenario.failing))) = 2.
Proof.
  pose proof (proj1 (stop_recording_final_pass
                       (Cli.start_recording Fixture.fresh_cli)
                       Scenario.failing eq_refl)) as H.
  cbv zeta in H.
  assert (Hne : Assistant.meeting_transcript
                  (Cli.assistant (Cli.start_recording Fixture.fresh_cli))
                <> []) by discriminate.
  apply (f_equal (@length _)) in H; [|exact Hne].
  rewrite length_map in H. exact H.
Defined.

(** X21. When the completion collaborator is down at the end of a
    recording, the CLI shows the previous summary (or the fixed apology if
    there was none) and the one-item error list, while the assistant keeps
    the summary and the action items it had: what is exported afterwards
    is the old data, not what is on screen. *)
Theorem stop_recording_when_service_is_down
    (self : Cli.MeetingSidekickCLI) (create : Assistant.completion) :
  Cli.recording self = true ->
  Assistant.meeting_transcript (Cli.assistant self) <> [] ->
  (forall request, create request = Raises) ->
  let stopped := fst (Cli.stop_recording self create) in
  Cli.assistant stopped = Cli.assistant self
  /\ Cli.summary_text stopped
     = (if truthy (Assistant.current_summary (Cli.assistant self))
        then Assistant.current_summary (Cli.assistant self)
        else Assistant.summary_unavailable)
  /\ Cli.action_items stopped = Assistant.extract_error_items.
Proof.
  intros Hrec Hne Hdown. cbv zeta.
  unfold Cli.stop_recording. rewrite Hrec.
  unfold Cli.refresh_summary, Cli.refresh_action_items.
  unfold Assistant.update_summary. simpl Cli.assistant.
  destruct (Assistant.meeting_transcript (Cli.assistant self)) as [|x t] eqn:Et;
    [now elim Hne|].
  rewrite Hdown. simpl.
  unfold Assistant.extract_action_items. rewrite Et, Hdown.
  simpl. repeat split.
Qed.

Lemma stop_recording_when_service_is_down_witness :
  Cli.action_items
    (fst (Cli.stop_recording (Cli.start_recording Fixture.fresh_cli)
            Scenario.failing))
  = Assistant.extract_error_items
  /\ Assistant.action_items
       (Cli.assistant
          (fst (Cli.stop_recording (Cli.start_recording Fixture.fresh_cli)
                  Scenario.failing)))
     = JArray [JObject [(u "task", JString (u "send the report"))]].
Proof.
  assert (Hne : Assistant.meeting_transcript
                  (Cli.assistant (Cli.start_recording Fixture.fresh_cli))
                <> []) by discriminate.
  destruct (stop_recording_when_service_is_down
              (Cli.start_recording Fixture.fresh_cli) Scenario.failing
              eq_refl Hne (fun _ => eq_refl)) as [Ha [_ Hi]].
  split; [exact Hi|]. rewrite Ha. reflexivity.
Defined.

(** *** Who hears about insights *)

Module Wiring.
Import Cli.

Lemma deliver_to_on_insight app batch :
  insight_handler app = Some on_insight ->
  insight_handler (deliver app batch) = Some on_insight
  /\ current_insights (cli (deliver app batch)) = current_insights (cli app).
Proof. intros H. unfold deliver. rewrite H. simpl. now split. Qed.

Lemma deliveries_to_on_insight : forall bs app,
  insight_handler app = Some on_insight ->
  insight_handler (fold_left deliver bs app) = Some on_insight
  /\ current_insights (cli (fold_left deliver bs app))
     = current_insights (cli app).
Proof.
  induction bs as [|b bs IH]; intros app H; simpl; [now split|].
  destruct (deliver_to_on_insight app b H) as [H1 H2].
  destruct (IH (deliver app b) H1) as [H3 H4].
  split; [exact H3 | now rewrite H4].
Qed.

Lemma transcription_to_on_insight app text now create :
  insight_handler app = Some on_insight ->
  insight_handler (on_new_transcription app text now create) = Some on_insight
  /\ current_insights (cli (on_new_transcription app text now create))
     = current_insights (cli app).
Proof.
  intros H. unfold on_new_transcription.
  destruct (Assistant.add_transcript _ _ _ _) as [a tr].
  match goal with
  | |- context [fold_left deliver ?bs ?app'] =>
      destruct (deliveries_to_on_insight bs app' H) as [H1 H2]
  end.
  split; [exact H1 | now rewrite H2].
Qed.

End Wiring.

(** X22. In the application as [run] wires it, the CLI registers its
    [on_new_insights] and [run] then registers [on_insight] in its place,
    the assistant holding one callback at a time: whatever is transcribed
    afterwards, the CLI's current insights stay the empty list they
    started as, and batches only reach the notifications. *)
Theorem insights_never_reach_the_cli
    (a : Assistant.MeetingAssistant) (calls : list Assistant.arrival) :
  Cli.current_insights (Cli.cli (Cli.transcriptions (Cli.main_run a) calls))
  = JArray [].
Proof.
  assert (H : forall calls app,
    Cli.insight_handler app = Some Cli.on_insight ->
    Cli.current_insights (Cli.cli (Cli.transcriptions app calls))
    = Cli.current_insights (Cli.cli app)).
  { clear. induction calls as [|c rest IH]; intros app Happ; [reflexivity|].
    unfold Cli.transcriptions in *. simpl.
    destruct (Wiring.transcription_to_on_insight app (Assistant.segment c)
                (Assistant.at_time c) (Assistant.service c) Happ) as [H1 H2].
    now rewrite (IH _ H1). }
  now rewrite H.
Qed.

(** The same segment in the two wirings: with the CLI's own handler the
    batch is shown, with the one [run] leaves registered it is not. *)
Example one_segment_two_wirings :
  let arrival := [Scenario.call "d" 100] in
  Cli.current_insights
    (Cli.cli (Cli.transcriptions (Cli.new_cli Scenario.three_segments) arrival))
  = Scenario.batch_of "A"
  /\ Cli.current_insights
       (Cli.cli (Cli.transcriptions (Cli.main_run Scenario.three_segments) arrival))
     = JArray []
  /\ Cli.notify_insight_calls
       (Cli.transcriptions (Cli.main_run Scenario.three_segments) arrival)
     = [JObject [(u "title", JString (u "A")); (u "detail", JString (u "B"))]].
Proof. repeat split. Qed.
